(** * MasterEverything: the guided-session state machine

    A shallow embedding of [src/App.tsx] (the React component that owns the
    session) and of [src/services/geminiService.ts] (the two oracle calls),
    followed by the properties of the session state machine.

    Conventions of the embedding.
    - Every [useState] cell of [App] is a field of [Hooks]; the [useRef]
      cell [progressInterval] and what the browser keeps for the component
      (live intervals, pending time-outs, requests in flight, the texts
      handed to the speech call) are fields of [World].
    - A handler reads the values of the render it was created in and writes
      through the setters.  For a handler called from the screen that render
      is the current one; the interval callback of [handleOverrideStart] and
      the time-out of [startGuidance] keep the values of the render in which
      they were registered, so these are stored with the timer.
    - A handler is a computation in [Handler]: it threads the [World] and may
      throw; what was written before a throw stays written, as with React
      state setters.
    - The values of [types.ts] are records.  What an awaited service call
      gives is taken at the type its signature declares, as TypeScript does;
      the service functions themselves are embedded on parsed JSON values,
      with [JSON.parse] as a recursive-descent parser.
    - What can happen to the component is an [Event]; [dispatch] runs the
      handler bound to it when the element it is bound to is on the page.
    - [Date.now()] is an integer number of milliseconds ([Z]).  The progress
      value [(elapsed / duration) * 100] is computed in exact rationals
      ([Q]); over the integers that [elapsed] ranges over, the double
      computation crosses 100 at the same point, [elapsed = 1500]. *)

From Stdlib Require Import List String Ascii Bool Arith ZArith QArith Qminmax Lia.
From Stdlib Require Import FunInd.
Import ListNotations.

Local Open Scope string_scope.
Set Warnings "-register-all".

(** ** JSON values and [JSON.parse] *)

Module Json.

Inductive value : Type :=
| JNull
| JBool (b : bool)
| JNumber (q : Q)
| JString (s : string)
| JArray (items : list value)
| JObject (members : list (string * value)).

Local Open Scope char_scope.
Local Open Scope N_scope.

Definition code (c : ascii) : N := N_of_ascii c.

Definition quote : ascii := "034".
Definition backslash : ascii := "092".

Definition is_ws (c : ascii) : bool :=
  Ascii.eqb c " " || Ascii.eqb c "009" || Ascii.eqb c "010" || Ascii.eqb c "013".

Fixpoint skip_ws (cs : list ascii) : list ascii :=
  match cs with
  | c :: r => if is_ws c then skip_ws r else cs
  | [] => []
  end.

Definition is_digit (c : ascii) : bool :=
  (48 <=? code c) && (code c <=? 57).

Definition digit_of (c : ascii) : Z := Z.of_N (code c - 48).

Definition hex_of (c : ascii) : option N :=
  let n := code c in
  if (48 <=? n) && (n <=? 57) then Some (n - 48)
  else if (65 <=? n) && (n <=? 70) then Some (n - 55)
  else if (97 <=? n) && (n <=? 102) then Some (n - 87)
  else None.

Definition hex4 (a b c d : ascii) : option N :=
  match hex_of a, hex_of b, hex_of c, hex_of d with
  | Some x, Some y, Some z, Some w => Some (((x * 16 + y) * 16 + z) * 16 + w)
  | _, _, _, _ => None
  end.

Definition byte (n : N) : ascii := ascii_of_N (n mod 256).

(** The UTF-8 bytes of a code point (a lone surrogate is written as three
    bytes, like any other value below 0x10000). *)
Definition utf8 (cp : N) : list ascii :=
  if cp <? 128 then [byte cp]
  else if cp <? 2048 then [byte (192 + cp / 64); byte (128 + cp mod 64)]
  else if cp <? 65536 then
    [byte (224 + cp / 4096); byte (128 + (cp / 64) mod 64); byte (128 + cp mod 64)]
  else
    [byte (240 + cp / 262144); byte (128 + (cp / 4096) mod 64);
     byte (128 + (cp / 64) mod 64); byte (128 + cp mod 64)].

Definition is_high (u : N) : bool := (55296 <=? u) && (u <=? 56319).
Definition is_low (u : N) : bool := (56320 <=? u) && (u <=? 57343).

(** The character that a two-character escape stands for. *)
Definition escape (e : ascii) : option ascii :=
  if Ascii.eqb e quote then Some quote
  else if Ascii.eqb e backslash then Some backslash
  else if Ascii.eqb e "/" then Some "/"
  else if Ascii.eqb e "b" then Some "008"
  else if Ascii.eqb e "f" then Some "012"
  else if Ascii.eqb e "n" then Some "010"
  else if Ascii.eqb e "r" then Some "013"
  else if Ascii.eqb e "t" then Some "009"
  else None.

(** The low half of a surrogate pair written as a second [\u] escape. *)
Definition low_half (cs : list ascii) : option N :=
  match cs with
  | b :: u :: a' :: b' :: c' :: d' :: _ =>
      if Ascii.eqb b backslash && Ascii.eqb u "u" then
        match hex4 a' b' c' d' with
        | Some lo => if is_low lo then Some lo else None
        | None => None
        end
      else None
  | _ => None
  end.

(** The characters of a string literal after its opening quote, up to the
    closing quote.  Unescaped control characters are refused; a [\u] escape
    is written in UTF-8, a surrogate pair as the one character it encodes. *)
Function parse_chars (cs : list ascii) (acc : list ascii) {struct cs}
  : option (string * list ascii) :=
  match cs with
  | [] => None
  | c :: r =>
      if Ascii.eqb c quote then Some (string_of_list_ascii (rev acc), r)
      else if Ascii.eqb c backslash then
        match r with
        | [] => None
        | e :: r1 =>
            if Ascii.eqb e "u" then
              match r1 with
              | a :: b :: c :: d :: r2 =>
                  match hex4 a b c d with
                  | None => None
                  | Some hi =>
                      match r2 with
                      | _ :: _ :: _ :: _ :: _ :: _ :: r3 =>
                          match (if is_high hi then low_half r2 else None) with
                          | Some lo =>
                              parse_chars r3
                                (rev (utf8 (65536 + (hi - 55296) * 1024 + (lo - 56320)))
                                   ++ acc)
                          | None => parse_chars r2 (rev (utf8 hi) ++ acc)
                          end
                      | _ => parse_chars r2 (rev (utf8 hi) ++ acc)
                      end
                  end
              | _ => None
              end
            else
              match escape e with
              | Some x => parse_chars r1 (x :: acc)
              | None => None
              end
        end
      else if code c <? 32 then None
      else parse_chars r (c :: acc)
  end.


Fixpoint take_digits (cs : list ascii) : list ascii * list ascii :=
  match cs with
  | c :: r =>
      if is_digit c then let (ds, r') := take_digits r in (c :: ds, r')
      else ([], cs)
  | [] => ([], [])
  end.

Definition digits_value (ds : list ascii) : Z :=
  fold_left (fun acc d => (10 * acc + digit_of d)%Z) ds 0%Z.

Definition number_value (neg : bool) (mant : Z) (scale : Z) : Q :=
  let m := if neg then (- mant)%Z else mant in
  if (0 <=? scale)%Z then inject_Z (m * 10 ^ scale)
  else Qmake m (Z.to_pos (10 ^ (- scale))).

(** The parts of a number of RFC 8259: [-? int frac? exp?]. *)
Definition sign (cs : list ascii) : bool * list ascii :=
  match cs with
  | c :: r => if Ascii.eqb c "-" then (true, r) else (false, cs)
  | [] => (false, [])
  end.

Definition int_part (cs : list ascii) : option (list ascii * list ascii) :=
  let (ip, r) := take_digits cs in
  match ip with
  | [] => None
  | d :: ds =>
      if Ascii.eqb d "0" && negb (Nat.eqb (List.length ds) 0) then None
      else Some (ip, r)
  end.

Definition frac_part (cs : list ascii) : option (list ascii * list ascii) :=
  match cs with
  | c :: r =>
      if Ascii.eqb c "." then
        let (fp, r') := take_digits r in
        match fp with [] => None | _ :: _ => Some (fp, r') end
      else Some ([], cs)
  | [] => Some ([], [])
  end.

Definition exp_sign (cs : list ascii) : bool * list ascii :=
  match cs with
  | c :: r =>
      if Ascii.eqb c "-" then (true, r)
      else if Ascii.eqb c "+" then (false, r)
      else (false, cs)
  | [] => (false, [])
  end.

Definition exp_part (cs : list ascii) : option (Z * list ascii) :=
  match cs with
  | c :: r =>
      if Ascii.eqb c "e" || Ascii.eqb c "E" then
        let (eneg, r1) := exp_sign r in
        let (ep, r2) := take_digits r1 in
        match ep with
        | [] => None
        | _ :: _ =>
            Some ((if eneg then - digits_value ep else digits_value ep)%Z, r2)
        end
      else Some (0%Z, cs)
  | [] => Some (0%Z, [])
  end.

Definition parse_number (cs : list ascii) : option (Q * list ascii) :=
  let (neg, c1) := sign cs in
  match int_part c1 with
  | None => None
  | Some (ip, c2) =>
      match frac_part c2 with
      | None => None
      | Some (fp, c3) =>
          match exp_part c3 with
          | None => None
          | Some (e, c4) =>
              Some (number_value neg (digits_value (ip ++ fp))
                      (e - Z.of_nat (List.length fp))%Z, c4)
          end
      end
  end.

(** [cs] without the characters of [p] in front of it. *)
Fixpoint strip (p cs : list ascii) : option (list ascii) :=
  match p, cs with
  | [], _ => Some cs
  | a :: p', c :: cs' => if Ascii.eqb a c then strip p' cs' else None
  | _ :: _, [] => None
  end.

(** A value that is not an array or an object. *)
Definition scalar (cs : list ascii) : option (value * list ascii) :=
  match cs with
  | [] => None
  | c :: r =>
      if Ascii.eqb c quote then
        match parse_chars r [] with
        | Some (s, r') => Some (JString s, r')
        | None => None
        end
      else
        match strip ["n"; "u"; "l"; "l"] cs with
        | Some r' => Some (JNull, r')
        | None =>
            match strip ["t"; "r"; "u"; "e"] cs with
            | Some r' => Some (JBool true, r')
            | None =>
                match strip ["f"; "a"; "l"; "s"; "e"] cs with
                | Some r' => Some (JBool false, r')
                | None =>
                    match parse_number cs with
                    | Some (q, r') => Some (JNumber q, r')
                    | None => None
                    end
                end
            end
        end
  end.

(** [cs] after white space and the character [c]. *)
Definition closes (c : ascii) (cs : list ascii) : option (list ascii) :=
  match skip_ws cs with
  | c' :: r => if Ascii.eqb c' c then Some r else None
  | [] => None
  end.

(** Recursive descent over the grammar, on a fuel that each nesting level
    and each element of an array or member of an object uses up. *)
Fixpoint parse_value (fuel : nat) (cs : list ascii) {struct fuel}
  : option (value * list ascii) :=
  match fuel with
  | O => None
  | S f =>
      match skip_ws cs with
      | [] => None
      | c :: r =>
          if Ascii.eqb c "[" then
            match closes "]" r with
            | Some r' => Some (JArray [], r')
            | None => parse_elements f r []
            end
          else if Ascii.eqb c "{" then
            match closes "}" r with
            | Some r' => Some (JObject [], r')
            | None => parse_members f r []
            end
          else scalar (c :: r)
      end
  end

with parse_elements (fuel : nat) (cs : list ascii) (acc : list value)
       {struct fuel} : option (value * list ascii) :=
  match fuel with
  | O => None
  | S f =>
      match parse_value f cs with
      | Some (v, r) =>
          match closes "," r with
          | Some r' => parse_elements f r' (v :: acc)
          | None =>
              match closes "]" r with
              | Some r' => Some (JArray (rev (v :: acc)), r')
              | None => None
              end
          end
      | None => None
      end
  end

with parse_members (fuel : nat) (cs : list ascii)
       (acc : list (string * value)) {struct fuel}
  : option (value * list ascii) :=
  match fuel with
  | O => None
  | S f =>
      match closes quote cs with
      | Some r =>
          match parse_chars r [] with
          | Some (k, r1) =>
              match closes ":" r1 with
              | Some r2 =>
                  match parse_value f r2 with
                  | Some (v, r3) =>
                      match closes "," r3 with
                      | Some r4 => parse_members f r4 ((k, v) :: acc)
                      | None =>
                          match closes "}" r3 with
                          | Some r4 => Some (JObject (rev ((k, v) :: acc)), r4)
                          | None => None
                          end
                      end
                  | None => None
                  end
              | None => None
              end
          | None => None
          end
      | None => None
      end
  end.

(** Twice the length of the input, and two: the descent never runs out of
    it ([parse_fuel_enough] below). *)
Definition enough (cs : list ascii) : nat := 2 * List.length cs + 2.

(** [JSON.parse(text)]: [None] stands for the [SyntaxError] it throws.
    Numbers are kept as exact rationals. *)
Definition parse (text : string) : option value :=
  let cs := list_ascii_of_string text in
  match parse_value (enough cs) cs with
  | Some (v, r) => match skip_ws r with [] => Some v | _ :: _ => None end
  | None => None
  end.

(** Property read [o.k]: the last member named [k] wins, as in an object
    built by [JSON.parse]. *)
Fixpoint member (k : string) (ms : list (string * value)) : option value :=
  match ms with
  | [] => None
  | (k', v) :: r =>
      match member k r with
      | Some v' => Some v'
      | None => if String.eqb k k' then Some v else None
      end
  end.

End Json.

(** ** What a call settles to *)

(** A value thrown by JavaScript code or carried by a rejected promise. *)
Inductive Thrown : Type :=
| TypeError
| Error (message : string).

(** The settled state of a promise, and the result of running code that may
    throw. *)
Inductive Outcome (A : Type) : Type :=
| Fulfilled (a : A)
| Rejected (e : Thrown).
Arguments Fulfilled {A} a.
Arguments Rejected {A} e.

Definition is_rejected {A} (o : Outcome A) : bool :=
  match o with Rejected _ => true | Fulfilled _ => false end.

(** [s || d] on an optional string: [undefined] and the empty string are
    falsy. *)
Definition or_else (s : option string) (d : string) : string :=
  match s with
  | Some EmptyString | None => d
  | Some t => t
  end.

(** ** [src/services/geminiService.ts] *)

Module GeminiService.

(** What [await ai.models.generateContent(...)] gives: the call is rejected
    (network, quota, service error), or it resolves to a response whose
    [text] may be undefined. *)
Inductive Reply : Type :=
| Failed (e : Thrown)
| Response (text : option string).

(** [analyzeSituation]: the request is awaited outside the [try], so a
    rejection leaves the function as it came; the [try] holds
    [JSON.parse(response.text || '{}')] alone. *)
Definition analyzeSituation (reply : Reply) : Outcome Json.value :=
  match reply with
  | Failed e => Rejected e
  | Response text =>
      match Json.parse (or_else text "{}") with
      | Some v => Fulfilled v
      | None => Rejected (Error "Failed to parse AI response")
      end
  end.

Definition fallback : Json.value :=
  Json.JObject [("success", Json.JBool true);
                ("feedback", Json.JString "Unable to verify, but proceeding safely.")].

(** [verifyStep]: the same shape; the [catch] returns the fallback. *)
Definition verifyStep (reply : Reply) : Outcome Json.value :=
  match reply with
  | Failed e => Rejected e
  | Response text =>
      match Json.parse (or_else text "{}") with
      | Some v => Fulfilled v
      | None => Fulfilled fallback
      end
  end.

End GeminiService.

(** ** [types.ts] *)

Inductive AppMode : Type :=
| FIRST_AID | ROBOTICS | MECHANICAL | CODING | TRADES | GENERAL.

Inductive AppState : Type :=
| HOME | INITIAL_CAPTURE | CAPTURE_COMPLETE | VOICE_DESCRIPTION | ANALYZING
| ANALYSIS_COMPLETE | PREPARING_INSTRUCTIONS | GUIDANCE | STEP_VALIDATION
| ESCALATION | COMPLETED.

Scheme Equality for AppState.

Inductive Overlay : Type :=
| arrow | circle | hand | press | wash | scan | code | bolt | gear.

Inductive Severity : Type := LOW | MEDIUM | HIGH.

Record Material : Type := mkMaterial {
  name : string;
  alternative : option string
}.

Record GuidanceStep : Type := mkGuidanceStep {
  id : Q;
  title : string;
  instruction : string;
  duration : option string;
  materials : option (list Material);
  warnings : option (list string);
  checkpoints : option (list string);
  audioPrompt : string;
  arOverlayType : Overlay
}.

Record AnalysisResult : Type := mkAnalysisResult {
  category : string;
  confidence : Q;
  reasoning : string;
  severity : Severity;
  uncertainties : option (list string);
  isSafeToProceed : bool;
  steps : list GuidanceStep
}.

(** The value of [verificationFeedback], [{ success; feedback }]. *)
Record Feedback : Type := mkFeedback {
  success : bool;
  feedback : string
}.

(** ** [src/App.tsx] *)

Module App.

(** *** The cells of the component *)

Record Hooks : Type := mkHooks {
  state : AppState;
  mode : AppMode;
  wideImage : option string;
  macroImage : option string;
  isCapturing : bool;
  analysis : option AnalysisResult;
  currentStepIdx : nat;
  isBusy : bool;
  voiceDescription : option string;
  verificationFeedback : option Feedback;
  overrideHeld : bool;
  overrideProgress : Q
}.

(** A live [setInterval] timer of [handleOverrideStart]: its handle, the
    [startTime] local of the call, and the cells of the render whose
    [proceedNext] the callback calls. *)
Record Interval : Type := mkInterval {
  handle : nat;
  startTime : Z;
  render : Hooks
}.

(** A request that is awaited. *)
Inductive Request : Type :=
| AnalysisRequest (m : AppMode) (wide macro : option string) (voice : option string)
| VerifyRequest (instr : string) (image : string).

Record World : Type := mkWorld {
  hooks : Hooks;
  progressInterval : option nat;
  intervals : list Interval;
  nextHandle : nat;
  timeouts : list Hooks;
  inflight : list Request;
  spoken : list string
}.

Definition initialHooks : Hooks :=
  mkHooks HOME FIRST_AID None None false None 0 false None None false 0.

(** Timer handles of a browser are positive. *)
Definition initial : World := mkWorld initialHooks None [] 1 [] [] [].

(** *** The handler monad *)

Definition Handler (A : Type) : Type := World -> World * Outcome A.

Definition ret {A} (a : A) : Handler A := fun w => (w, Fulfilled a).

Definition throw {A} (e : Thrown) : Handler A := fun w => (w, Rejected e).

Definition bind {A B} (m : Handler A) (k : A -> Handler B) : Handler B :=
  fun w =>
    match m w with
    | (w', Fulfilled a) => k a w'
    | (w', Rejected e) => (w', Rejected e)
    end.

Declare Scope handler_scope.
Delimit Scope handler_scope with handler.
Notation "x <- m ;; k" := (bind m (fun x => k))
  (at level 61, m at next level, right associativity) : handler_scope.
Notation "m ;; k" := (bind m (fun _ => k))
  (at level 61, right associativity) : handler_scope.
Local Open Scope handler_scope.

Definition exec {A} (m : Handler A) (w : World) : World := fst (m w).

(** [try { m } catch (e) { h e } finally { f }] *)
Definition try_catch_finally {A} (m : Handler A) (h : Thrown -> Handler A)
  (f : Handler unit) : Handler A :=
  fun w =>
    let (w1, r1) := match m w with
                    | (w', Rejected e) => h e w'
                    | done => done
                    end in
    match f w1 with
    | (w2, Fulfilled _) => (w2, r1)
    | (w2, Rejected e) => (w2, Rejected e)
    end.

Definition write (f : Hooks -> Hooks) : Handler unit :=
  fun w => (mkWorld (f (hooks w)) (progressInterval w) (intervals w)
              (nextHandle w) (timeouts w) (inflight w) (spoken w), Fulfilled tt).

Definition setState (v : AppState) : Handler unit :=
  write (fun h => mkHooks v (mode h) (wideImage h) (macroImage h) (isCapturing h)
    (analysis h) (currentStepIdx h) (isBusy h) (voiceDescription h)
    (verificationFeedback h) (overrideHeld h) (overrideProgress h)).
Definition setMode (v : AppMode) : Handler unit :=
  write (fun h => mkHooks (state h) v (wideImage h) (macroImage h) (isCapturing h)
    (analysis h) (currentStepIdx h) (isBusy h) (voiceDescription h)
    (verificationFeedback h) (overrideHeld h) (overrideProgress h)).
Definition setWideImage (v : option string) : Handler unit :=
  write (fun h => mkHooks (state h) (mode h) v (macroImage h) (isCapturing h)
    (analysis h) (currentStepIdx h) (isBusy h) (voiceDescription h)
    (verificationFeedback h) (overrideHeld h) (overrideProgress h)).
Definition setMacroImage (v : option string) : Handler unit :=
  write (fun h => mkHooks (state h) (mode h) (wideImage h) v (isCapturing h)
    (analysis h) (currentStepIdx h) (isBusy h) (voiceDescription h)
    (verificationFeedback h) (overrideHeld h) (overrideProgress h)).
Definition setIsCapturing (v : bool) : Handler unit :=
  write (fun h => mkHooks (state h) (mode h) (wideImage h) (macroImage h) v
    (analysis h) (currentStepIdx h) (isBusy h) (voiceDescription h)
    (verificationFeedback h) (overrideHeld h) (overrideProgress h)).
Definition setAnalysis (v : option AnalysisResult) : Handler unit :=
  write (fun h => mkHooks (state h) (mode h) (wideImage h) (macroImage h)
    (isCapturing h) v (currentStepIdx h) (isBusy h) (voiceDescription h)
    (verificationFeedback h) (overrideHeld h) (overrideProgress h)).
Definition setCurrentStepIdx (v : nat) : Handler unit :=
  write (fun h => mkHooks (state h) (mode h) (wideImage h) (macroImage h)
    (isCapturing h) (analysis h) v (isBusy h) (voiceDescription h)
    (verificationFeedback h) (overrideHeld h) (overrideProgress h)).
Definition setIsBusy (v : bool) : Handler unit :=
  write (fun h => mkHooks (state h) (mode h) (wideImage h) (macroImage h)
    (isCapturing h) (analysis h) (currentStepIdx h) v (voiceDescription h)
    (verificationFeedback h) (overrideHeld h) (overrideProgress h)).
Definition setVoiceDescription (v : option string) : Handler unit :=
  write (fun h => mkHooks (state h) (mode h) (wideImage h) (macroImage h)
    (isCapturing h) (analysis h) (currentStepIdx h) (isBusy h) v
    (verificationFeedback h) (overrideHeld h) (overrideProgress h)).
Definition setVerificationFeedback (v : option Feedback) : Handler unit :=
  write (fun h => mkHooks (state h) (mode h) (wideImage h) (macroImage h)
    (isCapturing h) (analysis h) (currentStepIdx h) (isBusy h)
    (voiceDescription h) v (overrideHeld h) (overrideProgress h)).
Definition setOverrideHeld (v : bool) : Handler unit :=
  write (fun h => mkHooks (state h) (mode h) (wideImage h) (macroImage h)
    (isCapturing h) (analysis h) (currentStepIdx h) (isBusy h)
    (voiceDescription h) (verificationFeedback h) v (overrideProgress h)).
Definition setOverrideProgress (v : Q) : Handler unit :=
  write (fun h => mkHooks (state h) (mode h) (wideImage h) (macroImage h)
    (isCapturing h) (analysis h) (currentStepIdx h) (isBusy h)
    (voiceDescription h) (verificationFeedback h) (overrideHeld h) v).

(** *** The browser *)

(** [progressInterval.current = v] *)
Definition setProgressInterval (v : option nat) : Handler unit :=
  fun w => (mkWorld (hooks w) v (intervals w) (nextHandle w) (timeouts w)
              (inflight w) (spoken w), Fulfilled tt).

(** [progressInterval.current], read when the code runs. *)
Definition getProgressInterval : Handler (option nat) :=
  fun w => (w, Fulfilled (progressInterval w)).

(** [window.setInterval(callback, 16)]: a fresh handle; the callback is
    [intervalCallback] below, of the render [r], with [start] for its
    [startTime]. *)
Definition setInterval (start : Z) (r : Hooks) : Handler nat :=
  fun w =>
    let n := nextHandle w in
    (mkWorld (hooks w) (progressInterval w)
       (intervals w ++ [mkInterval n start r]) (S n) (timeouts w)
       (inflight w) (spoken w), Fulfilled n).

Definition clearInterval (n : nat) : Handler unit :=
  fun w =>
    (mkWorld (hooks w) (progressInterval w)
       (filter (fun t => negb (Nat.eqb (handle t) n)) (intervals w)) (nextHandle w)
       (timeouts w) (inflight w) (spoken w), Fulfilled tt).

(** [setTimeout(callback, 400)] of [startGuidance]; the callback is
    [startGuidance_timeout] below, of the render [r]. *)
Definition setTimeout (r : Hooks) : Handler unit :=
  fun w =>
    (mkWorld (hooks w) (progressInterval w) (intervals w) (nextHandle w)
       (timeouts w ++ [r]) (inflight w) (spoken w), Fulfilled tt).

(** The call is sent and the handler waits for it. *)
Definition await (r : Request) : Handler unit :=
  fun w =>
    (mkWorld (hooks w) (progressInterval w) (intervals w) (nextHandle w)
       (timeouts w) (inflight w ++ [r]) (spoken w), Fulfilled tt).

(** [playInstructionAudio(text)]: it catches its own failures. *)
Definition playInstructionAudio (text : string) : Handler unit :=
  fun w =>
    (mkWorld (hooks w) (progressInterval w) (intervals w) (nextHandle w)
       (timeouts w) (inflight w) (spoken w ++ [text]), Fulfilled tt).

(** [analysis!.steps]: a [TypeError] when [analysis] is [null]. *)
Definition stepsOf (an : option AnalysisResult) : Handler (list GuidanceStep) :=
  match an with
  | Some a => ret (steps a)
  | None => throw TypeError
  end.

(** [l[i].field]: a [TypeError] when [l[i]] is [undefined]. *)
Definition at_index (l : list GuidanceStep) (i : nat) : Handler GuidanceStep :=
  match nth_error l i with
  | Some s => ret s
  | None => throw TypeError
  end.

(** Truthiness of a [string | null]. *)
Definition truthy (s : option string) : bool :=
  match s with
  | Some EmptyString | None => false
  | Some _ => true
  end.

(** *** The handlers *)

Section Render.

(** The cells as the render that created the handlers saw them. *)
Variable r : Hooks.

Definition startAssessment (selectedMode : AppMode) : Handler unit :=
  setMode selectedMode ;;
  setWideImage None ;;
  setMacroImage None ;;
  setVoiceDescription None ;;
  setState INITIAL_CAPTURE.

(** [handleCapture] up to its [await]. *)
Definition handleCapture (data : string) : Handler unit :=
  setIsCapturing false ;;
  if AppState_beq (state r) INITIAL_CAPTURE then
    if negb (truthy (wideImage r)) then
      setWideImage (Some data)
    else
      setMacroImage (Some data) ;;
      setState CAPTURE_COMPLETE
  else if AppState_beq (state r) STEP_VALIDATION then
    setIsBusy true ;;
    l <- stepsOf (analysis r) ;;
    s <- at_index l (currentStepIdx r) ;;
    await (VerifyRequest (instruction s) data)
  else ret tt.

(** [handleCapture] from the point where [verifyStep] has settled. *)
Definition handleCapture_resume (result : Outcome Feedback) : Handler unit :=
  match result with
  | Fulfilled fb =>
      setVerificationFeedback (Some fb) ;;
      setIsBusy false
  | Rejected e => throw e
  end.

(** [triggerAnalysis] up to its [await]. *)
Definition triggerAnalysis : Handler unit :=
  setState ANALYZING ;;
  setIsBusy true ;;
  await (AnalysisRequest (mode r) (wideImage r) (macroImage r)
           (if truthy (voiceDescription r) then voiceDescription r else None)).

(** [triggerAnalysis] from the point where [analyzeSituation] has
    settled: the rest of the [try], the [catch] and the [finally]. *)
Definition triggerAnalysis_resume (result : Outcome AnalysisResult)
  : Handler unit :=
  try_catch_finally
    (match result with
     | Fulfilled res =>
         setAnalysis (Some res) ;;
         setState ANALYSIS_COMPLETE
     | Rejected e => throw e
     end)
    (fun err => setState HOME)
    (setIsBusy false).

(** The callback that [startGuidance] hands to [setTimeout]. *)
Definition startGuidance_timeout : Handler unit :=
  setState GUIDANCE ;;
  setCurrentStepIdx 0 ;;
  match analysis r with
  | Some a =>
      match nth_error (steps a) 0 with
      | Some s => playInstructionAudio (audioPrompt s)
      | None => ret tt
      end
  | None => ret tt
  end.

Definition startGuidance : Handler unit :=
  setState PREPARING_INSTRUCTIONS ;;
  setTimeout r.

Definition proceedNext : Handler unit :=
  l <- stepsOf (analysis r) ;;
  if (Z.of_nat (currentStepIdx r) <? Z.of_nat (List.length l) - 1)%Z then
    let nextIdx := (currentStepIdx r + 1)%nat in
    setCurrentStepIdx nextIdx ;;
    setVerificationFeedback None ;;
    setState GUIDANCE ;;
    s <- at_index l nextIdx ;;
    playInstructionAudio (audioPrompt s)
  else
    setState COMPLETED.

Definition duration_ms : Z := 1500.

(** [Math.min((elapsed / duration) * 100, 100)] *)
Definition progressAt (elapsed : Z) : Q :=
  Qmin (inject_Z elapsed / inject_Z duration_ms * 100) 100.

(** The callback that [handleOverrideStart] hands to [setInterval];
    [startTime] is the local of that call and [now] what [Date.now()]
    gives when the callback runs. *)
Definition intervalCallback (startTime now : Z) : Handler unit :=
  let elapsed := (now - startTime)%Z in
  let progress := progressAt elapsed in
  setOverrideProgress progress ;;
  if Qle_bool 100 progress then
    cur <- getProgressInterval ;;
    match cur with
    | Some (S _ as n) => clearInterval n
    | _ => ret tt
    end ;;
    proceedNext ;;
    setOverrideHeld false ;;
    setOverrideProgress 0
  else ret tt.

Definition handleOverrideStart (now : Z) : Handler unit :=
  setOverrideHeld true ;;
  setOverrideProgress 0 ;;
  n <- setInterval now r ;;
  setProgressInterval (Some n).

Definition handleOverrideEnd : Handler unit :=
  cur <- getProgressInterval ;;
  match cur with
  | Some (S _ as n) =>
      clearInterval n ;;
      setProgressInterval None
  | _ => ret tt
  end ;;
  setOverrideHeld false ;;
  setOverrideProgress 0.

(** The two [Retake] buttons of the capture-ready screen. *)
Definition retakeContext : Handler unit :=
  setWideImage None ;;
  setState INITIAL_CAPTURE.

Definition retakeDetail : Handler unit :=
  setMacroImage None ;;
  setState INITIAL_CAPTURE.

End Render.

(** *** What can happen to the component *)

(** The clicks and pointer events on the elements of the JSX, the timers that
    fire, and the awaited calls that settle.  [Capture data] is a click on
    the shutter button (which sets [isCapturing]) followed by the effect of
    [CameraView], which hands the frame [data] to [handleCapture].
    [OverridePointerUp] stands for [pointerup] and for [pointerleave].
    [IntervalTick n now] is one run of the callback of timer [n], at a time
    when [Date.now()] gives [now].  [Close] is the cross of the header,
    [Back to Dashboard] or [Finish Session]. *)
Inductive Event : Type :=
| SelectMode (m : AppMode)
| Capture (data : string)
| RetakeContext
| RetakeDetail
| Analyze
| AnalysisSettled (result : Outcome AnalysisResult)
| DeployInstructions
| TimeoutElapsed
| OverridePointerDown (now : Z)
| OverridePointerUp
| IntervalTick (n : nat) (now : Z)
| SnapToVerify
| VerifySettled (result : Outcome Feedback)
| RetryCapture
| ConfirmProceed
| Close.

Definition isAnalysisRequest (q : Request) : bool :=
  match q with AnalysisRequest _ _ _ _ => true | VerifyRequest _ _ => false end.

Definition isVerifyRequest (q : Request) : bool :=
  match q with VerifyRequest _ _ => true | AnalysisRequest _ _ _ _ => false end.

(** The list without its first element that satisfies [p]. *)
Fixpoint remove_first {A} (p : A -> bool) (l : list A) : list A :=
  match l with
  | [] => []
  | a :: l' => if p a then l' else a :: remove_first p l'
  end.

Definition settle (p : Request -> bool) (w : World) : World :=
  mkWorld (hooks w) (progressInterval w) (intervals w) (nextHandle w)
    (timeouts w) (remove_first p (inflight w)) (spoken w).

Definition dropTimeout (w : World) : World :=
  mkWorld (hooks w) (progressInterval w) (intervals w) (nextHandle w)
    (tl (timeouts w)) (inflight w) (spoken w).

Definition present {A} (o : option A) : bool :=
  match o with Some _ => true | None => false end.

(** The guards under which the JSX puts each screen on the page. *)
Definition captureScreen (h : Hooks) : bool :=
  AppState_beq (state h) INITIAL_CAPTURE || AppState_beq (state h) STEP_VALIDATION.

Definition captureReadyScreen (h : Hooks) : bool :=
  AppState_beq (state h) CAPTURE_COMPLETE.

Definition resultScreen (h : Hooks) : bool :=
  AppState_beq (state h) ANALYSIS_COMPLETE && present (analysis h).

Definition guidanceScreen (h : Hooks) : bool :=
  AppState_beq (state h) GUIDANCE && present (analysis h).

Definition feedbackCard (h : Hooks) : bool :=
  AppState_beq (state h) STEP_VALIDATION && present (verificationFeedback h).

(** A button that sets [AppState.HOME] is on the page: the cross of
    [renderHeader], [Back to Dashboard] or [Finish Session]. *)
Definition closeButton (h : Hooks) : bool :=
  captureScreen h || captureReadyScreen h || resultScreen h || guidanceScreen h
  || AppState_beq (state h) ESCALATION || AppState_beq (state h) COMPLETED.

(** One event: the handler bound to it runs when the element it is bound
    to is on the page (and not disabled), when the timer is live, or when
    the request is in flight; otherwise nothing happens.  A throw ends the
    handler; the writes made before it stay. *)
Definition dispatch (e : Event) (w : World) : World :=
  let h := hooks w in
  match e with
  | SelectMode m =>
      if AppState_beq (state h) HOME then exec (startAssessment m) w else w
  | Capture data =>
      if captureScreen h && negb (isBusy h) then
        let w1 := exec (setIsCapturing true) w in
        exec (handleCapture (hooks w1) data) w1
      else w
  | RetakeContext =>
      if captureReadyScreen h then exec retakeContext w else w
  | RetakeDetail =>
      if captureReadyScreen h then exec retakeDetail w else w
  | Analyze =>
      if captureReadyScreen h then exec (triggerAnalysis h) w else w
  | AnalysisSettled result =>
      if existsb isAnalysisRequest (inflight w) then
        exec (triggerAnalysis_resume result) (settle isAnalysisRequest w)
      else w
  | DeployInstructions =>
      if resultScreen h then exec (startGuidance h) w else w
  | TimeoutElapsed =>
      match timeouts w with
      | r :: _ => exec (startGuidance_timeout r) (dropTimeout w)
      | [] => w
      end
  | OverridePointerDown now =>
      if guidanceScreen h then exec (handleOverrideStart h now) w else w
  | OverridePointerUp =>
      if guidanceScreen h then exec handleOverrideEnd w else w
  | IntervalTick n now =>
      match find (fun t => Nat.eqb (handle t) n) (intervals w) with
      | Some t => exec (intervalCallback (render t) (startTime t) now) w
      | None => w
      end
  | SnapToVerify =>
      if guidanceScreen h then exec (setState STEP_VALIDATION) w else w
  | VerifySettled result =>
      if existsb isVerifyRequest (inflight w) then
        exec (handleCapture_resume result) (settle isVerifyRequest w)
      else w
  | RetryCapture =>
      match verificationFeedback h with
      | Some fb =>
          if feedbackCard h && negb (success fb) then
            exec (setVerificationFeedback None) w
          else w
      | None => w
      end
  | ConfirmProceed =>
      if feedbackCard h then exec (proceedNext h) w else w
  | Close =>
      if closeButton h then exec (setState HOME) w else w
  end.

Definition run (es : list Event) (w : World) : World :=
  fold_left (fun w e => dispatch e w) es w.

Definition reachable (w : World) : Prop := exists es, run es initial = w.

End App.

Import App.
Local Open Scope handler_scope.

(** ** Reading a parsed value at a declared type *)

(** The TypeScript signatures of the two service functions are not checked
    when the code runs: what [JSON.parse] returned is used at the declared
    type.  [typed view o] is the settled call read through [view], any
    reading of a parsed value at that type; a rejection is what it was. *)
Definition typed {A} (view : Json.value -> A) (o : Outcome Json.value)
  : Outcome A :=
  match o with
  | Fulfilled v => Fulfilled (view v)
  | Rejected e => Rejected e
  end.

(** The shape that the specification asks of an accepted analysis: an
    object whose [steps] is an array of at least one step, each step an
    object with a title, an instruction, a spoken prompt and an overlay
    kind. *)
Definition has_string (k : string) (ms : list (string * Json.value)) : bool :=
  match Json.member k ms with
  | Some (Json.JString _) => true
  | _ => false
  end.

Definition spec_step_shape (v : Json.value) : bool :=
  match v with
  | Json.JObject ms =>
      has_string "title" ms && has_string "instruction" ms
      && has_string "audioPrompt" ms && has_string "arOverlayType" ms
  | _ => false
  end.

Definition spec_plan_shape (v : Json.value) : bool :=
  match v with
  | Json.JObject ms =>
      match Json.member "steps" ms with
      | Some (Json.JArray (s :: l)) => forallb spec_step_shape (s :: l)
      | _ => false
      end
  | _ => false
  end.

(** ** One request at a time *)

(** At most one request is in flight; while one is, [isBusy] is true; and on
    the capture-ready screen, where [Analyze Situation] is not disabled by
    [isBusy], none is. *)
Definition one_request (w : World) : Prop :=
  (List.length (inflight w) <= 1)%nat /\
  (inflight w <> [] -> isBusy (hooks w) = true) /\
  (state (hooks w) = CAPTURE_COMPLETE -> inflight w = []).

(** A step of the component is quiet when it leaves the requests in flight
    and [isBusy] as they are and does not enter the capture-ready screen; a
    handler is quiet when every run of it is. *)
Definition quiet (w w' : World) : Prop :=
  inflight w' = inflight w /\
  isBusy (hooks w') = isBusy (hooks w) /\
  (state (hooks w') = CAPTURE_COMPLETE ->
   state (hooks w) = CAPTURE_COMPLETE).

Definition Quiet {A} (m : Handler A) : Prop := forall w, quiet w (fst (m w)).

(** ** The index stays in the plan *)

(** The index of a render is in range of its plan. *)
Definition in_range (h : Hooks) : Prop :=
  exists a, analysis h = Some a /\
            (currentStepIdx h < List.length (steps a))%nat.

(** The two screens that show the active step. *)
Definition guiding (h : Hooks) : Prop :=
  state h = GUIDANCE \/ state h = STEP_VALIDATION.

(** What holds along a run: an installed plan has a step; a pending
    time-out of [startGuidance] has a plan to go to; on the two guidance
    screens the index is in range; and the render of every live timer has
    the plan of the session and an index in range of it. *)
Definition bounded (w : World) : Prop :=
  (forall a, analysis (hooks w) = Some a -> steps a <> []) /\
  (timeouts w <> [] -> present (analysis (hooks w)) = true) /\
  (guiding (hooks w) -> in_range (hooks w)) /\
  Forall (fun t => analysis (render t) = analysis (hooks w) /\
                   in_range (render t))
    (intervals w).

(** The runs considered: a plan that the analysis call delivers has at least
    one step, and it is not delivered while a timer of an override hold is
    live. *)
Definition step_ok (e : Event) (w : World) : Prop :=
  match e with
  | AnalysisSettled (Fulfilled a) => steps a <> [] /\ intervals w = []
  | _ => True
  end.

Fixpoint run_ok (es : list Event) (w : World) : Prop :=
  match es with
  | [] => True
  | e :: es' => step_ok e w /\ run_ok es' (dispatch e w)
  end.

(** A step of the component is tame for a render [r] when it leaves the plan
    and the time-outs as they are, starts no timer, and, if it ends on a
    guidance screen, either has kept screen and index or has an index in
    range of the plan of [r]; a handler is tame when every run of it is. *)
Definition tame (r : Hooks) (w w' : World) : Prop :=
  analysis (hooks w') = analysis (hooks w) /\
  timeouts w' = timeouts w /\
  incl (intervals w') (intervals w) /\
  (guiding (hooks w') ->
   (state (hooks w') = state (hooks w) /\
    currentStepIdx (hooks w') = currentStepIdx (hooks w)) \/
   exists a, analysis r = Some a /\
             (currentStepIdx (hooks w') < List.length (steps a))%nat).

Definition Tame {A} (r : Hooks) (m : Handler A) : Prop :=
  forall w, tame r w (fst (m w)).

(** ** The override hold *)

(** The cells of the session proper: all but the two of the hold. *)
Definition sameSession (h h' : Hooks) : Prop :=
  state h' = state h /\ mode h' = mode h /\ wideImage h' = wideImage h /\
  macroImage h' = macroImage h /\ isCapturing h' = isCapturing h /\
  analysis h' = analysis h /\ currentStepIdx h' = currentStepIdx h /\
  isBusy h' = isBusy h /\ voiceDescription h' = voiceDescription h /\
  verificationFeedback h' = verificationFeedback h.

(** ** What is on the page *)

(** The blocks that the JSX of [App] puts under [<main>], each under its own
    condition, in the order of the source. *)
Inductive Block : Type :=
| Dashboard | Camera | CaptureReady | Analyzing | Result | Preparing
| Procedure | FeedbackCard | Escalation | Completed.

Definition shown (g : bool) (b : Block) : list Block := if g then [b] else [].

Definition blocks (h : Hooks) : list Block :=
  (shown (AppState_beq (state h) HOME) Dashboard ++
   shown (captureScreen h) Camera ++
   shown (captureReadyScreen h) CaptureReady ++
   shown (AppState_beq (state h) ANALYZING) Analyzing ++
   shown (resultScreen h) Result ++
   shown (AppState_beq (state h) PREPARING_INSTRUCTIONS) Preparing ++
   shown (guidanceScreen h) Procedure ++
   shown (feedbackCard h) FeedbackCard ++
   shown (AppState_beq (state h) ESCALATION) Escalation ++
   shown (AppState_beq (state h) COMPLETED) Completed)%list.

(** One render of [App].  The guidance block reads
    [analysis.steps[currentStepIdx].materials] (and [.title],
    [.instruction], ...): a [TypeError] when the plan has no step at the
    index.  Nothing else that a block reads can throw: the other fields of
    a step are read behind [&&] or [?.], the result block and the header
    read fields of [analysis], the feedback card fields of the feedback. *)
Definition rendering (h : Hooks) : Outcome (list Block) :=
  if guidanceScreen h then
    match analysis h with
    | Some a =>
        match nth_error (steps a) (currentStepIdx h) with
        | Some _ => Fulfilled (blocks h)
        | None => Rejected TypeError
        end
    | None => Fulfilled (blocks h)
    end
  else Fulfilled (blocks h).

(** What is on the page: [App] has no error boundary, so when its render
    throws React takes the whole tree off the page.  (After that nothing
    of the component is left to click; [dispatch] does not follow the
    component there, it goes by the guards alone.) *)
Definition page (h : Hooks) : list Block :=
  match rendering h with
  | Fulfilled bs => bs
  | Rejected _ => []
  end.

(** The heading over the shutter button of the camera block. *)
Definition captureHeading (h : Hooks) : string :=
  if AppState_beq (state h) INITIAL_CAPTURE then
    if negb (truthy (wideImage h)) then "Capture Scene Context"
    else "Capture Technical Detail"
  else "Verify Task Completion".

(** The [src] of the two images of the capture-ready screen,
    [`data:image/jpeg;base64,${image}`]; [null] is printed as [null]. *)
Definition imgSrc (image : option string) : string :=
  "data:image/jpeg;base64," ++ match image with Some s => s | None => "null" end.

(** [Step {currentStepIdx + 1} of {analysis.steps.length}] of
    [renderHeader]. *)
Definition stepLabel (h : Hooks) : option (nat * nat) :=
  match analysis h with
  | Some a => Some ((currentStepIdx h + 1)%nat, List.length (steps a))
  | None => None
  end.

(** The width of the bar of the guidance screen, in percent:
    [((currentStepIdx + 1) / analysis.steps.length) * 100], for a plan that
    has a step. *)
Definition barWidth (h : Hooks) (a : AnalysisResult) : Q :=
  inject_Z (Z.of_nat (currentStepIdx h + 1))
  / inject_Z (Z.of_nat (List.length (steps a))) * 100.

(** ** [CameraView]: the frame handed to [onCapture] *)

Module CameraView.

(** [s.split(sep)] for a separator of one character. *)
Fixpoint split (sep : ascii) (s : string) : list string :=
  match s with
  | EmptyString => [EmptyString]
  | String c r =>
      if Ascii.eqb c sep then EmptyString :: split sep r
      else match split sep r with
           | f :: fs => String c f :: fs
           | [] => [String c EmptyString]
           end
  end.

(** [canvas.toDataURL('image/jpeg', 0.8).split(',')[1]]; [None] is
    [undefined]. *)
Definition captured (dataUrl : string) : option string :=
  nth_error (split "," dataUrl) 1.

End CameraView.

Fixpoint has_char (c : ascii) (s : string) : bool :=
  match s with
  | EmptyString => false
  | String x r => Ascii.eqb x c || has_char c r
  end.

(** ** [playInstructionAudio]: from the response to the samples played *)

Module Audio.

(** [atob]: forgiving base64 decoding.  ASCII white space is dropped; a
    text whose length is a multiple of 4 may end in one or two [=]; a
    length of 1 modulo 4 or a character outside the alphabet is an
    [InvalidCharacterError]. *)
Definition is_space (c : ascii) : bool :=
  let n := nat_of_ascii c in
  (n =? 9)%nat || (n =? 10)%nat || (n =? 12)%nat || (n =? 13)%nat || (n =? 32)%nat.

Definition sextet (c : ascii) : option Z :=
  let n := Z.of_nat (nat_of_ascii c) in
  if ((65 <=? n) && (n <=? 90))%Z then Some (n - 65)%Z
  else if ((97 <=? n) && (n <=? 122))%Z then Some (n - 71)%Z
  else if ((48 <=? n) && (n <=? 57))%Z then Some (n + 4)%Z
  else if (n =? 43)%Z then Some 62%Z
  else if (n =? 47)%Z then Some 63%Z
  else None.

Fixpoint sextets (cs : list ascii) : option (list Z) :=
  match cs with
  | [] => Some []
  | c :: r =>
      match sextet c, sextets r with
      | Some v, Some vs => Some (v :: vs)
      | _, _ => None
      end
  end.

Definition is_pad (c : ascii) : bool := Ascii.eqb c "=".

(** One or two [=] taken from the end. *)
Definition unpad (cs : list ascii) : list ascii :=
  match rev cs with
  | p :: q :: r => if is_pad p then (if is_pad q then rev r else rev (q :: r)) else cs
  | [p] => if is_pad p then [] else cs
  | [] => cs
  end.

Definition byte_of (v : Z) : ascii := ascii_of_nat (Z.to_nat (v mod 256)).

(** Four characters give three bytes; of a rest of three or two characters
    the bits that do not fill a byte are dropped. *)
Fixpoint octets (vs : list Z) : list ascii :=
  match vs with
  | a :: b :: c :: d :: r =>
      let v := (a * 262144 + b * 4096 + c * 64 + d)%Z in
      byte_of (v / 65536) :: byte_of (v / 256) :: byte_of v :: octets r
  | [a; b; c] =>
      let v := ((a * 4096 + b * 64 + c) / 4)%Z in
      [byte_of (v / 256); byte_of v]
  | [a; b] =>
      let v := ((a * 64 + b) / 16)%Z in
      [byte_of v]
  | _ => []
  end.

Definition invalidCharacter : Thrown :=
  Error "InvalidCharacterError: The string to be decoded is not correctly encoded.".

Definition atob (data : string) : Outcome string :=
  let cs := filter (fun c => negb (is_space c)) (list_ascii_of_string data) in
  let cs := if (List.length cs mod 4 =? 0)%nat then unpad cs else cs in
  if (List.length cs mod 4 =? 1)%nat then Rejected invalidCharacter
  else match sextets cs with
       | Some vs => Fulfilled (string_of_list_ascii (octets vs))
       | None => Rejected invalidCharacter
       end.

(** [bytes[i] = binary.charCodeAt(i)] *)
Definition charCodes (binary : string) : list Z :=
  map (fun c => Z.of_nat (nat_of_ascii c)) (list_ascii_of_string binary).

(** One element of an [Int16Array] over two bytes, low byte first, in two's
    complement. *)
Definition int16 (lo hi : Z) : Z :=
  let u := (lo + 256 * hi)%Z in
  if (u <? 32768)%Z then u else (u - 65536)%Z.

Fixpoint words (bytes : list Z) : list Z :=
  match bytes with
  | lo :: hi :: r => int16 lo hi :: words r
  | _ => []
  end.

(** [new Int16Array(bytes.buffer)]: a [RangeError] when the byte length is
    odd. *)
Definition Int16Array (bytes : list Z) : Outcome (list Z) :=
  if Nat.even (List.length bytes) then Fulfilled (words bytes)
  else Rejected (Error "RangeError: byte length of Int16Array should be a multiple of 2").

(** [audioCtx.createBuffer(1, length, 24000)]: a [NotSupportedError] when
    [length] is 0. *)
Definition createBuffer (length : nat) : Outcome unit :=
  if (length =? 0)%nat then Rejected (Error "NotSupportedError") else Fulfilled tt.

(** [channelData[i] = dataInt16[i] / 32768.0] *)
Definition channelData (dataInt16 : list Z) : list Q :=
  map (fun v => inject_Z v / 32768) dataInt16.

(** What [await ai.models.generateContent(...)] gives to
    [playInstructionAudio]: a rejection, or a response in which
    [candidates?.[0]?.content?.parts?.[0]?.inlineData?.data] may be
    undefined. *)
Inductive Reply : Type :=
| Failed (e : Thrown)
| Response (data : option string).

Definition and_then {A B} (o : Outcome A) (k : A -> Outcome B) : Outcome B :=
  match o with
  | Fulfilled a => k a
  | Rejected e => Rejected e
  end.

(** The body of the [try], in a browser that gives an audio context: the
    samples handed to [source.start()], or nothing when the response has no
    audio ([undefined] and the empty string are falsy). *)
Definition attempt (reply : Reply) : Outcome (option (list Q)) :=
  match reply with
  | Failed e => Rejected e
  | Response (Some (String _ _ as base64Audio)) =>
      and_then (atob base64Audio) (fun binary =>
      and_then (Int16Array (charCodes binary)) (fun dataInt16 =>
      and_then (createBuffer (List.length dataInt16)) (fun _ =>
      Fulfilled (Some (channelData dataInt16)))))
  | Response _ => Fulfilled None
  end.

(** [playInstructionAudio]: the whole body is in the [try]; the [catch]
    logs a warning. *)
Definition playInstructionAudio (reply : Reply) : Outcome (option (list Q)) :=
  match attempt reply with
  | Rejected err => Fulfilled None
  | done => done
  end.

End Audio.

Definition is_byte (b : Z) : Prop := (0 <= b < 256)%Z.

(** ** What every session keeps *)

(** What [triggerAnalysis] sends: a context image that is not empty, and no
    voice note. *)
Definition request_ok (q : Request) : Prop :=
  match q with
  | AnalysisRequest _ wide _ voice => truthy wide = true /\ voice = None
  | VerifyRequest _ _ => True
  end.

(** The screens [ESCALATION] and [VOICE_DESCRIPTION] are not entered and the
    voice note is not set; the capture-ready screen has a context image; the
    result screen, the guidance screen, a pending time-out and a live timer
    have a plan; the two waiting screens have what they wait for; and the
    requests in flight are as above. *)
Definition coherent (w : World) : Prop :=
  let h := hooks w in
  (state h <> ESCALATION /\ state h <> VOICE_DESCRIPTION) /\
  voiceDescription h = None /\
  (state h = CAPTURE_COMPLETE -> truthy (wideImage h) = true) /\
  (state h = ANALYSIS_COMPLETE \/ state h = GUIDANCE \/
   timeouts w <> [] \/ intervals w <> [] -> present (analysis h) = true) /\
  (state h = ANALYZING -> existsb isAnalysisRequest (inflight w) = true) /\
  (state h = PREPARING_INSTRUCTIONS -> timeouts w <> []) /\
  Forall request_ok (inflight w).

(** The states that at most one handler enters. *)
Definition gated (s : AppState) : bool :=
  match s with
  | ESCALATION | VOICE_DESCRIPTION | CAPTURE_COMPLETE | ANALYZING
  | ANALYSIS_COMPLETE | PREPARING_INSTRUCTIONS => true
  | _ => false
  end.

(** A step of the component is steady for a render [r] when it leaves the
    plan, the context image, the voice note, the time-outs and the requests
    as they are, starts no timer, enters no gated state, and enters the
    guidance screen only if [r] has a plan. *)
Definition steady (r : Hooks) (w w' : World) : Prop :=
  analysis (hooks w') = analysis (hooks w) /\
  wideImage (hooks w') = wideImage (hooks w) /\
  voiceDescription (hooks w') = voiceDescription (hooks w) /\
  timeouts w' = timeouts w /\
  inflight w' = inflight w /\
  incl (intervals w') (intervals w) /\
  (gated (state (hooks w')) = true -> state (hooks w') = state (hooks w)) /\
  (state (hooks w') = GUIDANCE ->
   state (hooks w) = GUIDANCE \/ present (analysis r) = true).

Definition Steady {A} (r : Hooks) (m : Handler A) : Prop :=
  forall w, steady r w (fst (m w)).

(** [isBusy] is set with nothing in flight, off the capture-ready screen. *)
Definition stuck (w : World) : Prop :=
  isBusy (hooks w) = true /\ inflight w = [] /\
  state (hooks w) <> CAPTURE_COMPLETE.

(** ** Walking the plan *)

(** One round on a step: [Snap to Verify], the photo, the verdict of
    [verifyStep], [Confirm & Proceed]. *)
Definition round (photo : string) (fb : Feedback) : list Event :=
  [SnapToVerify; Capture photo; VerifySettled (Fulfilled fb); ConfirmProceed].

Definition rounds (l : list (string * Feedback)) : list Event :=
  flat_map (fun p => round (fst p) (snd p)) l.

(** The session is on the guidance screen of step [k] of plan [a], idle,
    with no feedback left in its cell. *)
Definition atStep (a : AnalysisResult) (k : nat) (w : World) : Prop :=
  state (hooks w) = GUIDANCE /\ analysis (hooks w) = Some a /\
  currentStepIdx (hooks w) = k /\ isBusy (hooks w) = false /\
  inflight w = [] /\ verificationFeedback (hooks w) = None.

(** The state [w1] of a hold that started at [start] in [w] with no other
    timer live, between two of its samples. *)
Definition holding (w : World) (start : Z) (w1 : World) : Prop :=
  sameSession (hooks w) (hooks w1) /\
  intervals w1 = [mkInterval (nextHandle w) start (hooks w)] /\
  progressInterval w1 = Some (nextHandle w) /\
  inflight w1 = inflight w /\ spoken w1 = spoken w /\
  timeouts w1 = timeouts w.

(** ** Sessions used in the examples *)

Module Sample.

(** A JSON text written with ['] where the text has the double quote. *)
Fixpoint json (s : string) : string :=
  match s with
  | EmptyString => EmptyString
  | String c r => String (if Ascii.eqb c "'" then "034" else c)%char (json r)
  end.

Definition step (n : Z) (t : string) : GuidanceStep :=
  mkGuidanceStep (inject_Z n) t ("Do this: " ++ t) None None None None
    ("Now " ++ t) arrow.

Definition planOf (l : list GuidanceStep) : AnalysisResult :=
  mkAnalysisResult "Wiring" (9 # 10) "A connector is unplugged" MEDIUM None
    true l.

Definition plan3 : AnalysisResult :=
  planOf [step 1 "unplug"; step 2 "reseat"; step 3 "test"].

Definition plan1 : AnalysisResult := planOf [step 1 "reseat"].

Definition plan0 : AnalysisResult := planOf [].

(** From the home screen to the first step of [p]. *)
Definition toGuidance (p : AnalysisResult) : list Event :=
  [SelectMode ROBOTICS; Capture "wide.jpg"; Capture "macro.jpg";
   Analyze; AnalysisSettled (Fulfilled p); DeployInstructions;
   TimeoutElapsed].

(** From the home screen to the capture-ready screen. *)
Definition toCaptureReady : list Event :=
  [SelectMode ROBOTICS; Capture "wide.jpg"; Capture "macro.jpg"].

(** On to the feedback card of the first step of [p]. *)
Definition toFeedback (p : AnalysisResult) (fb : Feedback) : list Event :=
  toGuidance p ++
  [SnapToVerify; Capture "work.jpg"; VerifySettled (Fulfilled fb)].

Definition ok : Feedback := mkFeedback true "Connector is seated.".
Definition looseWire : Feedback := mkFeedback false "loose wire".

End Sample.


(** * Properties *)

(** ** [JSON.parse] *)

Example parse_demo :
  Json.parse (Sample.json "{ 'success': false, 'feedback': 'loose wire', 'n': [1, -2.5e1, 'A'] }")
  = Some (Json.JObject
            [("success", Json.JBool false); ("feedback", Json.JString "loose wire");
             ("n", Json.JArray [Json.JNumber 1; Json.JNumber (-25); Json.JString "A"])]).
Proof. vm_compute. reflexivity. Qed.

(** ** The fuel of the parser *)

Module JsonFacts.
Import Json.
Local Open Scope char_scope.

Lemma skip_ws_le (cs : list ascii) :
  (List.length (skip_ws cs) <= List.length cs)%nat.
Proof.
  induction cs as [|c cs IH]; simpl; [lia|].
  destruct (is_ws c); simpl; lia.
Qed.

Lemma closes_lt (c : ascii) (cs r : list ascii) :
  closes c cs = Some r -> (List.length r < List.length cs)%nat.
Proof.
  unfold closes. pose proof (skip_ws_le cs) as L.
  destruct (skip_ws cs) as [|c' r']; [discriminate|].
  destruct (Ascii.eqb c' c); [|discriminate].
  intros [= <-]. simpl in L. lia.
Qed.

Lemma strip_le (p cs r : list ascii) :
  strip p cs = Some r ->
  List.length cs = (List.length p + List.length r)%nat.
Proof.
  revert cs. induction p as [|a p IH]; intros cs; simpl.
  - intros [= <-]. reflexivity.
  - destruct cs as [|c cs]; [discriminate|].
    destruct (Ascii.eqb a c); [|discriminate].
    intros H. apply IH in H. simpl. lia.
Qed.

Lemma parse_chars_lt (cs acc : list ascii) (s : string) (r : list ascii) :
  parse_chars cs acc = Some (s, r) -> (List.length r < List.length cs)%nat.
Proof.
  functional induction (parse_chars cs acc); intros H;
    try discriminate;
    try (apply IHo in H; cbn [List.length] in *; lia).
  injection H as _ <-. cbn [List.length]. lia.
Qed.

Lemma take_digits_length (cs : list ascii) :
  (List.length (fst (take_digits cs)) + List.length (snd (take_digits cs)))%nat
  = List.length cs.
Proof.
  induction cs as [|c cs IH]; simpl; [reflexivity|].
  destruct (is_digit c); [|reflexivity].
  destruct (take_digits cs) as [ds r]. simpl in *. lia.
Qed.

Lemma take_digits_le (cs ds r : list ascii) :
  take_digits cs = (ds, r) ->
  (List.length ds + List.length r)%nat = List.length cs.
Proof.
  intros H. pose proof (take_digits_length cs) as L. rewrite H in L. exact L.
Qed.

Lemma sign_le (cs : list ascii) :
  (List.length (snd (sign cs)) <= List.length cs)%nat.
Proof.
  destruct cs as [|c r]; simpl; [lia|].
  destruct (Ascii.eqb c "-"); simpl; lia.
Qed.

Lemma int_part_lt (cs ip r : list ascii) :
  int_part cs = Some (ip, r) -> (List.length r < List.length cs)%nat.
Proof.
  unfold int_part. destruct (take_digits cs) as [ds r'] eqn:E.
  apply take_digits_le in E.
  destruct ds as [|d ds]; [discriminate|].
  destruct (_ && _); [discriminate|].
  intros [= _ <-]. simpl in E. lia.
Qed.

Lemma frac_part_le (cs fp r : list ascii) :
  frac_part cs = Some (fp, r) -> (List.length r <= List.length cs)%nat.
Proof.
  unfold frac_part. destruct cs as [|c cs]; [intros [= _ <-]; simpl; lia|].
  destruct (Ascii.eqb c ".").
  - destruct (take_digits cs) as [ds r'] eqn:E. apply take_digits_le in E.
    destruct ds; [discriminate|]. intros [= _ <-]. simpl in *. lia.
  - intros [= _ <-]. lia.
Qed.

Lemma exp_sign_le (cs : list ascii) :
  (List.length (snd (exp_sign cs)) <= List.length cs)%nat.
Proof.
  destruct cs as [|c r]; simpl; [lia|].
  destruct (Ascii.eqb c "-"); simpl; [lia|].
  destruct (Ascii.eqb c "+"); simpl; lia.
Qed.

Lemma exp_part_le (cs : list ascii) (e : Z) (r : list ascii) :
  exp_part cs = Some (e, r) -> (List.length r <= List.length cs)%nat.
Proof.
  unfold exp_part. destruct cs as [|c cs]; [intros [= _ <-]; simpl; lia|].
  destruct (_ || _).
  - pose proof (exp_sign_le cs) as S. destruct (exp_sign cs) as [eneg r1].
    destruct (take_digits r1) as [ds r2] eqn:E. apply take_digits_le in E.
    destruct ds; [discriminate|]. intros [= _ <-]. simpl in *. lia.
  - intros [= _ <-]. lia.
Qed.

Lemma parse_number_lt (cs : list ascii) (q : Q) (r : list ascii) :
  parse_number cs = Some (q, r) -> (List.length r < List.length cs)%nat.
Proof.
  unfold parse_number. pose proof (sign_le cs) as S.
  destruct (sign cs) as [neg c1]. simpl in S.
  destruct (int_part c1) as [[ip c2]|] eqn:I; [|discriminate].
  apply int_part_lt in I.
  destruct (frac_part c2) as [[fp c3]|] eqn:F; [|discriminate].
  apply frac_part_le in F.
  destruct (exp_part c3) as [[e c4]|] eqn:X; [|discriminate].
  apply exp_part_le in X.
  intros [= _ <-]. lia.
Qed.

Lemma scalar_lt (cs : list ascii) (v : value) (r : list ascii) :
  scalar cs = Some (v, r) -> (List.length r < List.length cs)%nat.
Proof.
  unfold scalar. destruct cs as [|c cs]; [discriminate|].
  destruct (Ascii.eqb c quote).
  - destruct (parse_chars cs []) as [[s r']|] eqn:P; [|discriminate].
    apply parse_chars_lt in P. intros [= _ <-]. simpl. lia.
  - destruct (strip ["n"; "u"; "l"; "l"] (c :: cs)) as [r'|] eqn:S1.
    { apply strip_le in S1. intros [= _ <-]. simpl in *. lia. }
    clear S1.
    destruct (strip ["t"; "r"; "u"; "e"] (c :: cs)) as [r'|] eqn:S2.
    { apply strip_le in S2. intros [= _ <-]. simpl in *. lia. }
    clear S2.
    destruct (strip ["f"; "a"; "l"; "s"; "e"] (c :: cs)) as [r'|] eqn:S3.
    { apply strip_le in S3. intros [= _ <-]. simpl in *. lia. }
    clear S3.
    destruct (parse_number (c :: cs)) as [[q r']|] eqn:N; [|discriminate].
    apply parse_number_lt in N. intros [= _ <-]. exact N.
Qed.

(** One step of the descent. *)
Lemma parse_value_S (f : nat) (cs : list ascii) :
  parse_value (S f) cs =
  match skip_ws cs with
  | [] => None
  | c :: r =>
      if Ascii.eqb c "[" then
        match closes "]" r with
        | Some r' => Some (JArray [], r')
        | None => parse_elements f r []
        end
      else if Ascii.eqb c "{" then
        match closes "}" r with
        | Some r' => Some (JObject [], r')
        | None => parse_members f r []
        end
      else scalar (c :: r)
  end.
Proof. reflexivity. Qed.

Lemma parse_elements_S (f : nat) (cs : list ascii) (acc : list value) :
  parse_elements (S f) cs acc =
  match parse_value f cs with
  | Some (v, r) =>
      match closes "," r with
      | Some r' => parse_elements f r' (v :: acc)
      | None =>
          match closes "]" r with
          | Some r' => Some (JArray (rev (v :: acc)), r')
          | None => None
          end
      end
  | None => None
  end.
Proof. reflexivity. Qed.

Lemma parse_members_S (f : nat) (cs : list ascii) (acc : list (string * value)) :
  parse_members (S f) cs acc =
  match closes quote cs with
  | Some r =>
      match parse_chars r [] with
      | Some (k, r1) =>
          match closes ":" r1 with
          | Some r2 =>
              match parse_value f r2 with
              | Some (v, r3) =>
                  match closes "," r3 with
                  | Some r4 => parse_members f r4 ((k, v) :: acc)
                  | None =>
                      match closes "}" r3 with
                      | Some r4 => Some (JObject (rev ((k, v) :: acc)), r4)
                      | None => None
                      end
                  end
              | None => None
              end
          | None => None
          end
      | None => None
      end
  | None => None
  end.
Proof. reflexivity. Qed.

(** Whatever is parsed takes at least one character. *)
Lemma parse_value_lt (n : nat) :
  (forall cs v r, parse_value n cs = Some (v, r) ->
                  (List.length r < List.length cs)%nat) /\
  (forall cs acc v r, parse_elements n cs acc = Some (v, r) ->
                      (List.length r < List.length cs)%nat) /\
  (forall cs acc v r, parse_members n cs acc = Some (v, r) ->
                      (List.length r < List.length cs)%nat).
Proof.
  induction n as [|f (IHv & IHe & IHm)]; [repeat split; discriminate|].
  split; [|split].
  - intros cs v r. rewrite parse_value_S. pose proof (skip_ws_le cs) as L.
    destruct (skip_ws cs) as [|c r0]; [discriminate|]. simpl in L.
    destruct (Ascii.eqb c "[").
    { destruct (closes "]" r0) as [r'|] eqn:C.
      - apply closes_lt in C. intros [= _ <-]. lia.
      - intros H. apply IHe in H. lia. }
    destruct (Ascii.eqb c "{").
    { destruct (closes "}" r0) as [r'|] eqn:C.
      - apply closes_lt in C. intros [= _ <-]. lia.
      - intros H. apply IHm in H. lia. }
    intros H. apply scalar_lt in H. cbn [List.length] in H. lia.
  - intros cs acc v r. rewrite parse_elements_S.
    destruct (parse_value f cs) as [[v0 r0]|] eqn:V; [|discriminate].
    apply IHv in V.
    destruct (closes "," r0) as [r'|] eqn:C.
    { apply closes_lt in C. intros H. apply IHe in H. lia. }
    destruct (closes "]" r0) as [r'|] eqn:C'; [|discriminate].
    apply closes_lt in C'. intros [= _ <-]. lia.
  - intros cs acc v r. rewrite parse_members_S.
    destruct (closes quote cs) as [r0|] eqn:C0; [|discriminate].
    apply closes_lt in C0.
    destruct (parse_chars r0 []) as [[k r1]|] eqn:P; [|discriminate].
    apply parse_chars_lt in P.
    destruct (closes ":" r1) as [r2|] eqn:C1; [|discriminate].
    apply closes_lt in C1.
    destruct (parse_value f r2) as [[v0 r3]|] eqn:V; [|discriminate].
    apply IHv in V.
    destruct (closes "," r3) as [r4|] eqn:C2.
    { apply closes_lt in C2. intros H. apply IHm in H. lia. }
    destruct (closes "}" r3) as [r4|] eqn:C3; [|discriminate].
    apply closes_lt in C3. intros [= _ <-]. lia.
Qed.

(** From twice the length of the input on, more fuel changes nothing. *)
Lemma fuel_stable (n : nat) :
  (forall cs m, (2 * List.length cs + 1 <= n)%nat -> (n <= m)%nat ->
                parse_value m cs = parse_value n cs) /\
  (forall cs acc m, (2 * List.length cs + 2 <= n)%nat -> (n <= m)%nat ->
                    parse_elements m cs acc = parse_elements n cs acc) /\
  (forall cs acc m, (2 * List.length cs + 2 <= n)%nat -> (n <= m)%nat ->
                    parse_members m cs acc = parse_members n cs acc).
Proof.
  induction n as [|f (IHv & IHe & IHm)]; [repeat split; intros; lia|].
  destruct (parse_value_lt f) as (Lv & _ & _).
  split; [|split].
  - intros cs [|m] Hn Hm; [lia|]. rewrite !parse_value_S.
    pose proof (skip_ws_le cs) as L.
    destruct (skip_ws cs) as [|c r0]; [reflexivity|]. simpl in L.
    destruct (Ascii.eqb c "[").
    { destruct (closes "]" r0); [reflexivity|]. apply IHe; lia. }
    destruct (Ascii.eqb c "{").
    { destruct (closes "}" r0); [reflexivity|]. apply IHm; lia. }
    reflexivity.
  - intros cs acc [|m] Hn Hm; [lia|]. rewrite !parse_elements_S.
    rewrite (IHv cs m) by lia.
    destruct (parse_value f cs) as [[v0 r0]|] eqn:V; [|reflexivity].
    apply Lv in V.
    destruct (closes "," r0) as [r'|] eqn:C; [|reflexivity].
    apply closes_lt in C. apply IHe; lia.
  - intros cs acc [|m] Hn Hm; [lia|]. rewrite !parse_members_S.
    destruct (closes quote cs) as [r0|] eqn:C0; [|reflexivity].
    apply closes_lt in C0.
    destruct (parse_chars r0 []) as [[k r1]|] eqn:P; [|reflexivity].
    apply parse_chars_lt in P.
    destruct (closes ":" r1) as [r2|] eqn:C1; [|reflexivity].
    apply closes_lt in C1.
    rewrite (IHv r2 m) by lia.
    destruct (parse_value f r2) as [[v0 r3]|] eqn:V; [|reflexivity].
    apply Lv in V.
    destruct (closes "," r3) as [r4|] eqn:C2; [|reflexivity].
    apply closes_lt in C2. apply IHm; lia.
Qed.

(** The fuel that [parse] gives is enough: with any larger amount the
    descent returns the same. *)
Theorem parse_fuel_enough (cs : list ascii) (m : nat) :
  (enough cs <= m)%nat -> parse_value m cs = parse_value (enough cs) cs.
Proof.
  intros H. apply (proj1 (fuel_stable (enough cs))); [unfold enough; lia | exact H].
Qed.

End JsonFacts.

(** ** The advance routine, [proceedNext] *)

Section Advance.

Variables (r : Hooks) (a : AnalysisResult).
Hypothesis plan : analysis r = Some a.

Lemma nth_error_in_range {A} (l : list A) (i : nat) :
  (i < List.length l)%nat -> exists x, nth_error l i = Some x.
Proof.
  intros H. destruct (nth_error l i) eqn:E; eauto.
  apply nth_error_None in E. lia.
Qed.

(** Before the last step: the index goes up by one, the feedback is
    dropped, the screen is the guidance screen, and the prompt of the new
    step is spoken. *)
Lemma proceedNext_inner (w : World) :
  (currentStepIdx r + 1 < List.length (steps a))%nat ->
  exists s,
    nth_error (steps a) (currentStepIdx r + 1) = Some s /\
    proceedNext r w =
      (setCurrentStepIdx (currentStepIdx r + 1) ;;
       setVerificationFeedback None ;;
       setState GUIDANCE ;;
       playInstructionAudio (audioPrompt s)) w.
Proof.
  intros H.
  destruct (nth_error_in_range (steps a) _ H) as [s Hs].
  exists s. split; [exact Hs|].
  unfold proceedNext, stepsOf, at_index. rewrite plan.
  unfold bind at 1, ret at 1.
  replace (Z.of_nat (currentStepIdx r) <? Z.of_nat (List.length (steps a)) - 1)%Z
    with true by (symmetry; apply Z.ltb_lt; lia).
  rewrite Hs. reflexivity.
Qed.

(** On the last step (or beyond it) the only write is the screen. *)
Lemma proceedNext_last (w : World) :
  (List.length (steps a) <= currentStepIdx r + 1)%nat ->
  proceedNext r w = setState COMPLETED w.
Proof.
  intros H.
  unfold proceedNext, stepsOf. rewrite plan.
  unfold bind at 1, ret at 1.
  replace (Z.of_nat (currentStepIdx r) <? Z.of_nat (List.length (steps a)) - 1)%Z
    with false by (symmetry; apply Z.ltb_ge; lia).
  reflexivity.
Qed.

(** What the routine leaves in the three cells the advance is about. *)
Lemma proceedNext_cells (w : World) :
  let w' := exec (proceedNext r) w in
  if (currentStepIdx r + 1 <? List.length (steps a))%nat then
    state (hooks w') = GUIDANCE /\
    currentStepIdx (hooks w') = (currentStepIdx r + 1)%nat /\
    verificationFeedback (hooks w') = None
  else
    state (hooks w') = COMPLETED /\
    currentStepIdx (hooks w') = currentStepIdx (hooks w) /\
    verificationFeedback (hooks w') = verificationFeedback (hooks w).
Proof.
  unfold exec.
  destruct (currentStepIdx r + 1 <? List.length (steps a))%nat eqn:E.
  - apply Nat.ltb_lt in E.
    destruct (proceedNext_inner w E) as (s & _ & ->). repeat split.
  - apply Nat.ltb_ge in E.
    rewrite (proceedNext_last w E). repeat split.
Qed.

End Advance.

(** The confirm button runs [proceedNext] of the current render whenever the
    feedback card is on the page. *)
Lemma dispatch_confirm (w : World) :
  feedbackCard (hooks w) = true ->
  dispatch ConfirmProceed w = exec (proceedNext (hooks w)) w.
Proof. intros H. unfold dispatch. rewrite H. reflexivity. Qed.

Lemma feedbackCard_iff (h : Hooks) :
  feedbackCard h = true <->
  state h = STEP_VALIDATION /\ exists fb, verificationFeedback h = Some fb.
Proof.
  unfold feedbackCard, present. split.
  - intros H. apply andb_true_iff in H as [H1 H2].
    destruct (state h); try discriminate.
    destruct (verificationFeedback h); try discriminate. eauto.
  - intros [-> [fb ->]]. reflexivity.
Qed.

(** The screen and the index after [proceedNext] depend on the render only
    through its plan and its index. *)
Lemma proceedNext_agree (r1 r2 : Hooks) (w1 w2 : World) :
  analysis r1 = analysis r2 ->
  currentStepIdx r1 = currentStepIdx r2 ->
  state (hooks w1) = state (hooks w2) ->
  currentStepIdx (hooks w1) = currentStepIdx (hooks w2) ->
  state (hooks (exec (proceedNext r1) w1)) = state (hooks (exec (proceedNext r2) w2)) /\
  currentStepIdx (hooks (exec (proceedNext r1) w1))
  = currentStepIdx (hooks (exec (proceedNext r2) w2)).
Proof.
  intros Ha Hi Hs Hc.
  destruct (analysis r2) as [a|] eqn:E.
  - pose proof (proceedNext_cells r1 a Ha w1) as P1.
    pose proof (proceedNext_cells r2 a E w2) as P2.
    cbv zeta in P1, P2. rewrite Hi in P1.
    destruct (currentStepIdx r2 + 1 <? List.length (steps a))%nat;
      destruct P1 as (-> & -> & _), P2 as (-> & -> & _); auto.
  - unfold exec, proceedNext, stepsOf. rewrite Ha, E. simpl. auto.
Qed.

(** ** Retaking a capture *)

(** C9.  On the capture-ready screen with both images taken, [Retake] under
    the context image empties that cell and nothing else, and [Retake] under
    the detail image empties that cell and nothing else; either way the
    session is back on the capture screen. *)
Theorem retake_clears_only_its_slot (w : World) :
  state (hooks w) = CAPTURE_COMPLETE ->
  present (wideImage (hooks w)) = true ->
  present (macroImage (hooks w)) = true ->
  let h := hooks w in
  hooks (dispatch RetakeContext w)
  = mkHooks INITIAL_CAPTURE (mode h) None (macroImage h) (isCapturing h)
      (analysis h) (currentStepIdx h) (isBusy h) (voiceDescription h)
      (verificationFeedback h) (overrideHeld h) (overrideProgress h)
  /\
  hooks (dispatch RetakeDetail w)
  = mkHooks INITIAL_CAPTURE (mode h) (wideImage h) None (isCapturing h)
      (analysis h) (currentStepIdx h) (isBusy h) (voiceDescription h)
      (verificationFeedback h) (overrideHeld h) (overrideProgress h).
Proof.
  intros H _ _. unfold dispatch, captureReadyScreen. rewrite H.
  split; reflexivity.
Qed.

Lemma retake_clears_only_its_slot_witness :
  let w := run Sample.toCaptureReady initial in
  (state (hooks w) = CAPTURE_COMPLETE /\
   wideImage (hooks w) = Some "wide.jpg" /\
   macroImage (hooks w) = Some "macro.jpg") /\
  (wideImage (hooks (dispatch RetakeContext w)) = None /\
   macroImage (hooks (dispatch RetakeContext w)) = Some "macro.jpg") /\
  (wideImage (hooks (dispatch RetakeDetail w)) = Some "wide.jpg" /\
   macroImage (hooks (dispatch RetakeDetail w)) = None).
Proof.
  intros w.
  destruct (retake_clears_only_its_slot w eq_refl eq_refl eq_refl) as [Hc Hd].
  rewrite Hc, Hd. repeat split.
Defined.

(** ** Confirm and proceed *)

(** C10.  On the feedback card the outcome of [Confirm & Proceed] does not
    look at the verdict: with a card that says success and with a card that
    says failure the session ends on the same screen at the same index, and
    with a plan installed the failed card does not hold the session on the
    validation screen. *)
Theorem confirm_ignores_verdict (w : World) (good bad : Feedback) :
  state (hooks w) = STEP_VALIDATION ->
  success good = true ->
  success bad = false ->
  let wg := exec (setVerificationFeedback (Some good)) w in
  let wb := exec (setVerificationFeedback (Some bad)) w in
  state (hooks (dispatch ConfirmProceed wg)) = state (hooks (dispatch ConfirmProceed wb)) /\
  currentStepIdx (hooks (dispatch ConfirmProceed wg))
  = currentStepIdx (hooks (dispatch ConfirmProceed wb)) /\
  (present (analysis (hooks w)) = true ->
   state (hooks (dispatch ConfirmProceed wb)) = GUIDANCE \/
   state (hooks (dispatch ConfirmProceed wb)) = COMPLETED).
Proof.
  intros Hs _ _ wg wb.
  assert (Cg : feedbackCard (hooks wg) = true)
    by (apply feedbackCard_iff; split; [exact Hs | eexists; reflexivity]).
  assert (Cb : feedbackCard (hooks wb) = true)
    by (apply feedbackCard_iff; split; [exact Hs | eexists; reflexivity]).
  rewrite (dispatch_confirm wg Cg), (dispatch_confirm wb Cb).
  destruct (proceedNext_agree (hooks wg) (hooks wb) wg wb) as [E1 E2];
    try reflexivity.
  split; [exact E1 | split; [exact E2 |]].
  intros Hp. destruct (analysis (hooks w)) as [a|] eqn:Ea; [|discriminate].
  pose proof (proceedNext_cells (hooks wb) a Ea wb) as P. cbv zeta in P.
  destruct (currentStepIdx (hooks wb) + 1 <? List.length (steps a))%nat;
    destruct P as (-> & _); auto.
Qed.

Lemma confirm_ignores_verdict_witness :
  let w := run (Sample.toGuidance Sample.plan3 ++ [SnapToVerify]) initial in
  let wg := exec (setVerificationFeedback (Some Sample.ok)) w in
  let wb := exec (setVerificationFeedback (Some Sample.looseWire)) w in
  state (hooks w) = STEP_VALIDATION /\
  state (hooks (dispatch ConfirmProceed wg)) = state (hooks (dispatch ConfirmProceed wb)) /\
  currentStepIdx (hooks (dispatch ConfirmProceed wg))
  = currentStepIdx (hooks (dispatch ConfirmProceed wb)).
Proof.
  intros w wg wb.
  destruct (confirm_ignores_verdict w Sample.ok Sample.looseWire
              eq_refl eq_refl eq_refl) as (H1 & H2 & _).
  split; [reflexivity | split; [exact H1 | exact H2]].
Defined.

(** What [Confirm & Proceed] does on the feedback card of a session with a
    plan: before the last step it moves to the next step and drops the
    card's feedback; on the last step it ends on the completion screen. *)
Lemma confirm_proceed_advance (w : World) (a : AnalysisResult) :
  feedbackCard (hooks w) = true ->
  analysis (hooks w) = Some a ->
  let w' := dispatch ConfirmProceed w in
  ((currentStepIdx (hooks w) + 1 < List.length (steps a))%nat ->
   state (hooks w') = GUIDANCE /\
   currentStepIdx (hooks w') = (currentStepIdx (hooks w) + 1)%nat /\
   verificationFeedback (hooks w') = None) /\
  ((currentStepIdx (hooks w) + 1 = List.length (steps a))%nat ->
   state (hooks w') = COMPLETED /\
   currentStepIdx (hooks w') = currentStepIdx (hooks w)).
Proof.
  intros Hc Ha w'. subst w'. rewrite (dispatch_confirm w Hc).
  pose proof (proceedNext_cells (hooks w) a Ha w) as P. cbv zeta in P.
  split; intros H.
  - apply Nat.ltb_lt in H. rewrite H in P. exact P.
  - assert (E : (currentStepIdx (hooks w) + 1 <? List.length (steps a))%nat = false)
      by (apply Nat.ltb_ge; lia).
    rewrite E in P. destruct P as (P1 & P2 & _). auto.
Qed.

(** C1.  A session on the feedback card of the only step of a one-step plan:
    [Confirm & Proceed] ends on the completion screen, and the feedback that
    was on the card is still in its cell.  (The branch of [proceedNext] for
    the steps before the last one calls [setVerificationFeedback(null)]; the
    branch for the last step does not.) *)
Theorem confirm_on_last_step_keeps_feedback :
  let w := run (Sample.toFeedback Sample.plan1 Sample.ok) initial in
  (state (hooks w) = STEP_VALIDATION /\
   verificationFeedback (hooks w) = Some Sample.ok /\
   analysis (hooks w) = Some Sample.plan1 /\
   currentStepIdx (hooks w) = (List.length (steps Sample.plan1) - 1)%nat) /\
  state (hooks (dispatch ConfirmProceed w)) = COMPLETED /\
  verificationFeedback (hooks (dispatch ConfirmProceed w)) = Some Sample.ok.
Proof. vm_compute. repeat split. Qed.

(** The feedback left behind is on the page again as soon as the next
    session asks for a verification, before any photo is taken there. *)
Example stale_feedback_in_next_session :
  let w := run (Sample.toFeedback Sample.plan1 Sample.ok
                ++ [ConfirmProceed; Close]
                ++ Sample.toGuidance Sample.plan3 ++ [SnapToVerify]) initial in
  feedbackCard (hooks w) = true /\
  verificationFeedback (hooks w) = Some Sample.ok /\
  inflight w = [].
Proof. vm_compute. repeat split. Qed.

(** ** The override hold *)

Lemma scaled_full (e : Z) :
  (100 <= inject_Z e / inject_Z duration_ms * 100)%Q <-> (duration_ms <= e)%Z.
Proof.
  unfold Qle, Qdiv, Qmult, Qinv, inject_Z, duration_ms. simpl. lia.
Qed.

(** The test [progress >= 100] of the callback succeeds exactly from 1500
    milliseconds on. *)
Lemma progress_full_iff (e : Z) :
  Qle_bool 100 (progressAt e) = true <-> (duration_ms <= e)%Z.
Proof.
  rewrite Qle_bool_iff. unfold progressAt. rewrite Q.min_glb_iff, scaled_full.
  split; [tauto|]. intros; split; [assumption | apply Qle_refl].
Qed.

Lemma progress_not_full (e : Z) :
  (e < duration_ms)%Z -> Qle_bool 100 (progressAt e) = false.
Proof.
  intros H. destruct (Qle_bool 100 (progressAt e)) eqn:E; [|reflexivity].
  apply progress_full_iff in E. lia.
Qed.

Lemma progress_mono (e1 e2 : Z) :
  (e1 <= e2)%Z -> (progressAt e1 <= progressAt e2)%Q.
Proof.
  intros H. unfold progressAt. apply Q.min_le_compat_r.
  unfold Qle, Qdiv, Qmult, Qinv, inject_Z, duration_ms. simpl. lia.
Qed.

Lemma progress_range (e : Z) :
  (0 <= e)%Z -> (0 <= progressAt e)%Q /\ (progressAt e <= 100)%Q.
Proof.
  intros H. unfold progressAt. split.
  - apply Q.min_glb; [|discriminate].
    unfold Qle, Qdiv, Qmult, Qinv, inject_Z, duration_ms. simpl. lia.
  - apply Q.le_min_r.
Qed.

(** The callback at full progress: after the progress cell is written and
    the timer that [progressInterval.current] names is cleared, it is
    [proceedNext] of the render of the hold that decides the screen, the
    index, the feedback and what is spoken. *)
Lemma intervalCallback_full (r : Hooks) (start now : Z) (w : World) :
  (duration_ms <= now - start)%Z ->
  let w0 := exec (setOverrideProgress (progressAt (now - start)) ;;
                  cur <- getProgressInterval ;;
                  match cur with
                  | Some (S _ as n) => clearInterval n
                  | _ => ret tt
                  end) w in
  let w1 := exec (proceedNext r) w0 in
  let w' := exec (intervalCallback r start now) w in
  state (hooks w') = state (hooks w1) /\
  currentStepIdx (hooks w') = currentStepIdx (hooks w1) /\
  verificationFeedback (hooks w') = verificationFeedback (hooks w1) /\
  spoken w' = spoken w1 /\
  intervals w' = intervals w1.
Proof.
  intros H. apply progress_full_iff in H.
  unfold intervalCallback. rewrite H.
  cbv [exec bind setOverrideProgress setOverrideHeld write getProgressInterval ret].
  cbn [progressInterval fst].
  destruct (progressInterval w) as [[|n]|]; cbv [clearInterval]; cbn [fst];
    match goal with
    | |- context [proceedNext r ?x] =>
        destruct (proceedNext r x) as [w2 [[]|e]]; cbn; auto
    end.
Qed.

(** The two paths agree for a hold of the current step.  A hold that was
    started at the current step of the current plan and now completes, and
    [Confirm & Proceed] on the feedback card at that step of that plan,
    leave the session on the same screen at the same index: both run
    [proceedNext], and the render that the callback of the hold took it
    from has the index and the plan of the session. *)
Theorem override_completion_same_advance
  (w1 w2 : World) (t : Interval) (n : nat) (now : Z) (a : AnalysisResult) :
  find (fun t => Nat.eqb (handle t) n) (intervals w1) = Some t ->
  (duration_ms <= now - startTime t)%Z ->
  analysis (render t) = Some a ->
  currentStepIdx (render t) = currentStepIdx (hooks w1) ->
  feedbackCard (hooks w2) = true ->
  analysis (hooks w2) = Some a ->
  currentStepIdx (hooks w2) = currentStepIdx (hooks w1) ->
  state (hooks (dispatch (IntervalTick n now) w1))
  = state (hooks (dispatch ConfirmProceed w2)) /\
  currentStepIdx (hooks (dispatch (IntervalTick n now) w1))
  = currentStepIdx (hooks (dispatch ConfirmProceed w2)).
Proof.
  intros Hf Hd Ha Hi Hc Ha2 Hi2.
  rewrite (dispatch_confirm w2 Hc).
  unfold dispatch. rewrite Hf.
  destruct (intervalCallback_full (render t) (startTime t) now w1 Hd)
    as (-> & -> & _).
  set (w0 := exec _ w1).
  pose proof (proceedNext_cells (render t) a Ha w0) as P1.
  pose proof (proceedNext_cells (hooks w2) a Ha2 w2) as P2.
  cbv zeta in P1, P2. rewrite Hi2, <- Hi in P2.
  assert (E0 : currentStepIdx (hooks w0) = currentStepIdx (hooks w1)).
  { subst w0. unfold exec, bind, setOverrideProgress, write, getProgressInterval.
    simpl. destruct (progressInterval w1) as [[|k]|]; reflexivity. }
  destruct (currentStepIdx (render t) + 1 <? List.length (steps a))%nat;
    destruct P1 as (-> & -> & _), P2 as (-> & -> & _); split; congruence.
Qed.

Lemma override_completion_same_advance_witness :
  let w1 := run (Sample.toGuidance Sample.plan3 ++ [OverridePointerDown 1000])
              initial in
  let w2 := run (Sample.toFeedback Sample.plan3 Sample.looseWire) initial in
  state (hooks (dispatch (IntervalTick 1 2500) w1)) = GUIDANCE /\
  state (hooks (dispatch ConfirmProceed w2)) = GUIDANCE /\
  currentStepIdx (hooks (dispatch (IntervalTick 1 2500) w1))
  = currentStepIdx (hooks (dispatch ConfirmProceed w2)).
Proof.
  intros w1 w2.
  pose (t := mkInterval 1 1000 (hooks (run (Sample.toGuidance Sample.plan3) initial))).
  assert (Hf : find (fun t => Nat.eqb (handle t) 1) (intervals w1) = Some t)
    by (vm_compute; reflexivity).
  assert (Hd : (duration_ms <= 2500 - startTime t)%Z)
    by (vm_compute; discriminate).
  assert (Ha : analysis (render t) = Some Sample.plan3)
    by (vm_compute; reflexivity).
  assert (Hi : currentStepIdx (render t) = currentStepIdx (hooks w1))
    by (vm_compute; reflexivity).
  assert (Hc : feedbackCard (hooks w2) = true) by (vm_compute; reflexivity).
  assert (Ha2 : analysis (hooks w2) = Some Sample.plan3)
    by (vm_compute; reflexivity).
  assert (Hi2 : currentStepIdx (hooks w2) = currentStepIdx (hooks w1))
    by (vm_compute; reflexivity).
  destruct (override_completion_same_advance w1 w2 t 1 2500 Sample.plan3
              Hf Hd Ha Hi Hc Ha2 Hi2) as [H1 H2].
  split; [vm_compute; reflexivity | split; [vm_compute; reflexivity | exact H2]].
Defined.

(** A sample below full progress writes the progress cell and nothing
    else. *)
Lemma tick_below_full (w : World) (t : Interval) (n : nat) (now : Z) :
  find (fun t => Nat.eqb (handle t) n) (intervals w) = Some t ->
  (now - startTime t < duration_ms)%Z ->
  dispatch (IntervalTick n now) w
  = exec (setOverrideProgress (progressAt (now - startTime t))) w.
Proof.
  intros Hf Hd. unfold dispatch. rewrite Hf.
  unfold intervalCallback. rewrite (progress_not_full _ Hd).
  reflexivity.
Qed.

(** Releasing the button: the hold is over, the progress is 0, and the cells
    of the session proper are what they were. *)
Lemma pointer_up_cells (w : World) :
  let h := hooks w in
  let w' := exec handleOverrideEnd w in
  hooks w'
  = mkHooks (state h) (mode h) (wideImage h) (macroImage h) (isCapturing h)
      (analysis h) (currentStepIdx h) (isBusy h) (voiceDescription h)
      (verificationFeedback h) false 0 /\
  inflight w' = inflight w /\ spoken w' = spoken w.
Proof.
  unfold exec, handleOverrideEnd, bind, getProgressInterval.
  destruct (progressInterval w) as [[|n]|]; repeat split.
Qed.

(** [proceedNext] touches neither the timers nor the requests. *)
Lemma proceedNext_frame (r : Hooks) (w : World) :
  let w' := exec (proceedNext r) w in
  intervals w' = intervals w /\
  progressInterval w' = progressInterval w /\
  inflight w' = inflight w /\
  timeouts w' = timeouts w.
Proof.
  unfold exec, proceedNext, stepsOf, at_index, bind.
  destruct (analysis r) as [a|]; simpl; [|auto].
  destruct (Z.of_nat (currentStepIdx r) <? Z.of_nat (List.length (steps a)) - 1)%Z;
    simpl; [|auto].
  destruct (nth_error (steps a) (currentStepIdx r + 1)); simpl; auto.
Qed.

(** A hold that is alone: its timer is the only live one and it is the one
    that [progressInterval.current] names.  The sample that finds full
    progress clears it, so no later sample of the hold can run. *)
Lemma lone_hold_completes_once (w : World) (t : Interval) (now : Z) :
  intervals w = [t] ->
  progressInterval w = Some (handle t) ->
  handle t <> 0%nat ->
  (duration_ms <= now - startTime t)%Z ->
  let w' := dispatch (IntervalTick (handle t) now) w in
  intervals w' = [] /\
  forall n now', dispatch (IntervalTick n now') w' = w'.
Proof.
  intros Hi Hp Hn Hd w'.
  assert (E : intervals w' = []).
  { subst w'. unfold dispatch. rewrite Hi. simpl. rewrite Nat.eqb_refl.
    destruct (intervalCallback_full (render t) (startTime t) now w Hd)
      as (_ & _ & _ & _ & ->).
    destruct (proceedNext_frame (render t)
                (exec (setOverrideProgress (progressAt (now - startTime t)) ;;
                       cur <- getProgressInterval ;;
                       match cur with
                       | Some (S _ as n) => clearInterval n
                       | _ => ret tt
                       end) w)) as (-> & _).
    unfold exec, bind, getProgressInterval. simpl. rewrite Hp.
    destruct (handle t) as [|k] eqn:Ek; [congruence|].
    simpl. rewrite Hi. simpl. rewrite Ek, Nat.eqb_refl. reflexivity. }
  split; [exact E|].
  intros n now'. unfold dispatch. rewrite E. reflexivity.
Qed.

(** The first pointer down of a hold, with no timer live: one timer, named
    by [progressInterval.current], and the progress at 0. *)
Lemma pointer_down_lone (w : World) (start : Z) :
  guidanceScreen (hooks w) = true ->
  intervals w = [] ->
  let w0 := dispatch (OverridePointerDown start) w in
  sameSession (hooks w) (hooks w0) /\
  overrideHeld (hooks w0) = true /\ overrideProgress (hooks w0) = 0 /\
  intervals w0 = [mkInterval (nextHandle w) start (hooks w)] /\
  progressInterval w0 = Some (nextHandle w) /\
  inflight w0 = inflight w /\ spoken w0 = spoken w.
Proof.
  intros G E. unfold dispatch. rewrite G.
  unfold exec, handleOverrideStart, bind. simpl. rewrite E.
  repeat split.
Qed.

(** A sample of a lone timer below full progress. *)
Lemma sample_below_full (w : World) (t : Interval) (now : Z) :
  intervals w = [t] ->
  (now - startTime t < duration_ms)%Z ->
  let w' := dispatch (IntervalTick (handle t) now) w in
  sameSession (hooks w) (hooks w') /\
  overrideHeld (hooks w') = overrideHeld (hooks w) /\
  overrideProgress (hooks w') = progressAt (now - startTime t) /\
  intervals w' = [t] /\ progressInterval w' = progressInterval w /\
  inflight w' = inflight w /\ spoken w' = spoken w.
Proof.
  intros E H w'. subst w'.
  rewrite (tick_below_full w t (handle t) now); [|rewrite E; simpl; rewrite Nat.eqb_refl; reflexivity|exact H].
  unfold exec. simpl. rewrite E. repeat split.
Qed.

(** A hold that starts with no timer live.  The progress starts at 0; the
    samples before 1500 ms raise it monotonically and leave the session as
    it is; releasing the button puts the progress back to 0, leaves the
    session as it is and stops the timer; the first sample from 1500 ms on
    does what [proceedNext] does and stops the timer, so that no later
    sample does anything. *)
Theorem lone_hold (w : World) (start : Z) :
  guidanceScreen (hooks w) = true ->
  intervals w = [] ->
  nextHandle w <> 0%nat ->
  let n := nextHandle w in
  let w0 := dispatch (OverridePointerDown start) w in
  overrideProgress (hooks w0) = 0 /\
  (forall t1 t2, (t1 <= t2)%Z -> (t2 - start < duration_ms)%Z ->
     let w1 := dispatch (IntervalTick n t1) w0 in
     let w2 := dispatch (IntervalTick n t2) w1 in
     (overrideProgress (hooks w1) <= overrideProgress (hooks w2))%Q /\
     sameSession (hooks w) (hooks w2) /\ spoken w2 = spoken w) /\
  (forall t, (t - start < duration_ms)%Z ->
     let w1 := dispatch OverridePointerUp (dispatch (IntervalTick n t) w0) in
     overrideProgress (hooks w1) = 0 /\ overrideHeld (hooks w1) = false /\
     sameSession (hooks w) (hooks w1) /\ spoken w1 = spoken w /\
     intervals w1 = []) /\
  (forall t, (duration_ms <= t - start)%Z ->
     let w1 := dispatch (IntervalTick n t) w0 in
     state (hooks w1) = state (hooks (exec (proceedNext (hooks w)) w)) /\
     currentStepIdx (hooks w1)
     = currentStepIdx (hooks (exec (proceedNext (hooks w)) w)) /\
     intervals w1 = [] /\
     forall n' t', dispatch (IntervalTick n' t') w1 = w1).
Proof.
  intros G E Hn n w0.
  destruct (pointer_down_lone w start G E) as (S0 & H0 & P0 & I0 & R0 & F0 & K0).
  fold w0 in S0, H0, P0, I0, R0, F0, K0.
  remember (nextHandle w) as k eqn:Ek. subst n.
  pose (t := mkInterval k start (hooks w)).
  assert (Below : forall w' now, intervals w' = [t] -> (now - start < duration_ms)%Z ->
            let w'' := dispatch (IntervalTick k now) w' in
            sameSession (hooks w') (hooks w'') /\
            overrideProgress (hooks w'') = progressAt (now - start) /\
            intervals w'' = [t] /\ progressInterval w'' = progressInterval w' /\
            spoken w'' = spoken w').
  { intros w' now Iw L.
    destruct (sample_below_full w' t now Iw L) as (A & _ & B & C & D & _ & F).
    change (handle t) with k in A, B, C, D, F.
    change (startTime t) with start in B.
    exact (conj A (conj B (conj C (conj D F)))). }
  split; [exact P0|]. split; [|split].
  - intros t1 t2 L12 L2 w1 w2.
    destruct (Below w0 t1 I0) as (S1 & P1 & I1 & R1 & K1); [lia|].
    fold w1 in S1, P1, I1, R1, K1.
    destruct (Below w1 t2 I1) as (S2 & P2 & I2 & R2 & K2); [lia|].
    fold w2 in S2, P2, I2, R2, K2.
    split; [|split].
    + rewrite P1, P2. apply progress_mono. lia.
    + unfold sameSession in *. intuition congruence.
    + congruence.
  - intros t1 L1 w1.
    destruct (Below w0 t1 I0) as (S1 & P1 & I1 & R1 & K1); [lia|].
    subst w1. remember (dispatch (IntervalTick k t1) w0) as w' eqn:Ew'.
    clear Ew'.
    assert (G' : guidanceScreen (hooks w') = true).
    { unfold guidanceScreen in *. destruct S0 as (A & _ & _ & _ & _ & B & _),
        S1 as (A1 & _ & _ & _ & _ & B1 & _). rewrite A1, B1, A, B. exact G. }
    assert (Ew : dispatch OverridePointerUp w' = exec handleOverrideEnd w').
    { unfold dispatch. rewrite G'. reflexivity. }
    destruct (pointer_up_cells w') as (C & _ & K).
    rewrite Ew. rewrite C. cbn [overrideProgress overrideHeld].
    split; [reflexivity | split; [reflexivity | split; [|split]]].
    + unfold sameSession in *. cbn. intuition congruence.
    + rewrite K. congruence.
    + unfold exec, handleOverrideEnd, bind, getProgressInterval. cbn.
      rewrite R1, R0. destruct k as [|k']; [congruence|].
      cbn. rewrite I1. cbn. rewrite Nat.eqb_refl. reflexivity.
  - intros t1 L1 w1.
    destruct (lone_hold_completes_once w0 t t1 I0 R0 Hn L1) as (Z1 & Z2).
    change (handle t) with k in Z1, Z2. fold w1 in Z1, Z2.
    assert (F : find (fun x => Nat.eqb (handle x) k) (intervals w0) = Some t).
    { rewrite I0. simpl. rewrite Nat.eqb_refl. reflexivity. }
    assert (Ew : w1 = exec (intervalCallback (hooks w) start t1) w0).
    { subst w1. unfold dispatch. rewrite F. reflexivity. }
    destruct (intervalCallback_full (hooks w) start t1 w0 L1) as (A & B & _).
    rewrite <- Ew in A, B.
    match type of A with
    | _ = state (hooks (exec _ ?x)) =>
        destruct (proceedNext_agree (hooks w) (hooks w) x w) as [A' B']
    end; try reflexivity.
    { destruct S0 as (S & _). rewrite <- S.
      unfold exec, bind, getProgressInterval. simpl.
      destruct (progressInterval w0) as [[|j]|]; reflexivity. }
    { destruct S0 as (_ & _ & _ & _ & _ & _ & S & _). rewrite <- S.
      unfold exec, bind, getProgressInterval. simpl.
      destruct (progressInterval w0) as [[|j]|]; reflexivity. }
    split; [congruence | split; [congruence | split; [exact Z1 | exact Z2]]].
Qed.

(** C8.  Two pointers go down on the override button one after the other
    and one of them is lifted.  [handleOverrideStart] has overwritten
    [progressInterval.current] with the second handle, so the release clears
    the second timer only; the first one keeps sampling.  After the release
    the progress cell, reset to 0, goes up again; at 1500 ms the session
    advances although the hold was cancelled; the timer is still live, and
    its next sample advances again, pulling the session back from the
    validation screen and speaking the prompt a second time. *)
Theorem overlapping_holds_advance_after_cancel :
  let w0 := run (Sample.toGuidance Sample.plan3
                 ++ [OverridePointerDown 1000; OverridePointerDown 1010;
                     OverridePointerUp]) initial in
  let w1 := dispatch (IntervalTick 1 1600) w0 in
  let w2 := dispatch (IntervalTick 1 2500) w1 in
  let w3 := dispatch (IntervalTick 1 2516) (dispatch SnapToVerify w2) in
  (overrideHeld (hooks w0) = false /\ overrideProgress (hooks w0) = 0 /\
   progressInterval w0 = None /\ map handle (intervals w0) = [1%nat] /\
   state (hooks w0) = GUIDANCE /\ currentStepIdx (hooks w0) = 0%nat) /\
  (overrideProgress (hooks w1) == 40) /\
  (state (hooks w2) = GUIDANCE /\ currentStepIdx (hooks w2) = 1%nat /\
   map handle (intervals w2) = [1%nat] /\
   spoken w2 = ["Now unplug"; "Now reseat"]) /\
  (state (hooks (dispatch SnapToVerify w2)) = STEP_VALIDATION /\
   state (hooks w3) = GUIDANCE /\
   spoken w3 = ["Now unplug"; "Now reseat"; "Now reseat"]).
Proof. vm_compute. repeat split. Qed.

(** C2.  The callback of a hold calls the [proceedNext] of the render in
    which the hold started, not the one of the session as it is when the
    hold completes.  After the two overlapping holds above and the advance
    to step 1, the first timer is still live and its render is at step 0.
    When it completes again the index stays 1: the increment is applied to
    the old index.  [Confirm & Proceed] at step 1 of the same plan leaves
    index 2; and on the feedback card of step 1, where both can happen,
    the button leaves index 2 and the hold leaves index 1. *)
Theorem stale_hold_completion_differs_from_confirm :
  let w0 := run (Sample.toGuidance Sample.plan3
                 ++ [OverridePointerDown 1000; OverridePointerDown 1010;
                     OverridePointerUp; IntervalTick 1 2500]) initial in
  let w := run [SnapToVerify; Capture "work.jpg";
                VerifySettled (Fulfilled Sample.ok)] w0 in
  (state (hooks w0) = GUIDANCE /\ currentStepIdx (hooks w0) = 1%nat /\
   analysis (hooks w0) = Some Sample.plan3 /\
   map handle (intervals w0) = [1%nat] /\
   map (fun t => currentStepIdx (render t)) (intervals w0) = [0%nat]) /\
  (state (hooks (dispatch (IntervalTick 1 2516) w0)) = GUIDANCE /\
   currentStepIdx (hooks (dispatch (IntervalTick 1 2516) w0)) = 1%nat) /\
  (feedbackCard (hooks w) = true /\ currentStepIdx (hooks w) = 1%nat /\
   analysis (hooks w) = Some Sample.plan3) /\
  (state (hooks (dispatch ConfirmProceed w)) = GUIDANCE /\
   currentStepIdx (hooks (dispatch ConfirmProceed w)) = 2%nat) /\
  (state (hooks (dispatch (IntervalTick 1 2600) w)) = GUIDANCE /\
   currentStepIdx (hooks (dispatch (IntervalTick 1 2600) w)) = 1%nat).
Proof. vm_compute. repeat split. Qed.

(** With two timers live, the sampled value also goes down during the
    hold. *)
Example overlapping_holds_progress_drops :
  let w0 := run (Sample.toGuidance Sample.plan3
                 ++ [OverridePointerDown 1000; OverridePointerDown 1300]) initial in
  let w1 := dispatch (IntervalTick 1 1600) w0 in
  let w2 := dispatch (IntervalTick 2 1616) w1 in
  overrideHeld (hooks w2) = true /\
  (overrideProgress (hooks w2) < overrideProgress (hooks w1))%Q.
Proof. vm_compute. split; reflexivity. Qed.

(** Scenario B of the specification: a one-step plan, one hold sampled
    every 16 ms; the sample at 1504 ms completes the session, and no
    verification request was sent. *)
Example scenario_B :
  let samples := map (fun k => IntervalTick 1 (1000 + 16 * Z.of_nat k)) (seq 1 94) in
  let w := run (Sample.toGuidance Sample.plan1
                ++ [OverridePointerDown 1000] ++ samples) initial in
  state (hooks w) = COMPLETED /\ inflight w = [] /\ intervals w = [] /\
  overrideHeld (hooks w) = false /\ overrideProgress (hooks w) = 0.
Proof. vm_compute. repeat split. Qed.

(** ** The analysis call *)

Lemma analyzeSituation_rejected (reply : GeminiService.Reply) (e : Thrown) :
  GeminiService.analyzeSituation reply = Rejected e <->
  reply = GeminiService.Failed e \/
  exists text, reply = GeminiService.Response text /\
               Json.parse (or_else text "{}") = None /\
               e = Error "Failed to parse AI response".
Proof.
  unfold GeminiService.analyzeSituation. split.
  - destruct reply as [e'|text].
    + intros [= ->]. auto.
    + destruct (Json.parse (or_else text "{}")) eqn:P; [discriminate|].
      intros [= <-]. right. eauto.
  - intros [-> | (text & -> & P & ->)]; [reflexivity|].
    rewrite P. reflexivity.
Qed.

(** C7, as amended.  [analyzeSituation] accepts a response exactly when its
    text (or ["{}"] when the text is missing or empty) is JSON, and returns
    the parsed value as it is, of whatever shape; it is rejected only when
    the request itself failed, with that failure, or when the text is not
    JSON, with the error [Failed to parse AI response]. *)
Theorem analyzeSituation_accepts_any_json (reply : GeminiService.Reply) :
  (forall v,
     GeminiService.analyzeSituation reply = Fulfilled v <->
     exists text, reply = GeminiService.Response text /\
                  Json.parse (or_else text "{}") = Some v) /\
  (forall e,
     GeminiService.analyzeSituation reply = Rejected e <->
     reply = GeminiService.Failed e \/
     exists text, reply = GeminiService.Response text /\
                  Json.parse (or_else text "{}") = None /\
                  e = Error "Failed to parse AI response").
Proof.
  split; [|intros e; apply analyzeSituation_rejected].
  intros v. unfold GeminiService.analyzeSituation. split.
  - destruct reply as [e|text]; [discriminate|].
    destruct (Json.parse (or_else text "{}")) eqn:P; [|discriminate].
    intros [= ->]. eauto.
  - intros (text & -> & P). rewrite P. reflexivity.
Qed.

Lemma analyzeSituation_accepts_any_json_witness :
  Json.parse (or_else (Some (Sample.json "{'category': 'Wiring', 'steps': []}")) "{}")
  = Some (Json.JObject [("category", Json.JString "Wiring");
                        ("steps", Json.JArray [])]) /\
  GeminiService.analyzeSituation
    (GeminiService.Response (Some (Sample.json "{'category': 'Wiring', 'steps': []}")))
  = Fulfilled (Json.JObject [("category", Json.JString "Wiring");
                             ("steps", Json.JArray [])]).
Proof.
  assert (P : Json.parse (or_else (Some (Sample.json "{'category': 'Wiring', 'steps': []}")) "{}")
              = Some (Json.JObject [("category", Json.JString "Wiring");
                                    ("steps", Json.JArray [])]))
    by (vm_compute; reflexivity).
  split; [exact P|].
  apply (proj1 (analyzeSituation_accepts_any_json _)).
  eexists. split; [reflexivity | exact P].
Defined.

(** C7, the claim as it was stated, fails: a response without text is read
    as ["{}"] and accepted, and so is a response with no step or with a step
    that has none of the fields; none of them has the shape of a plan. *)
Lemma analyzeSituation_accepts_shapeless_responses :
  (GeminiService.analyzeSituation (GeminiService.Response None)
   = Fulfilled (Json.JObject []) /\
   spec_plan_shape (Json.JObject []) = false) /\
  (GeminiService.analyzeSituation (GeminiService.Response (Some (Sample.json "{'steps': []}")))
   = Fulfilled (Json.JObject [("steps", Json.JArray [])]) /\
   spec_plan_shape (Json.JObject [("steps", Json.JArray [])]) = false) /\
  (GeminiService.analyzeSituation (GeminiService.Response (Some (Sample.json "{'steps': [{}]}")))
   = Fulfilled (Json.JObject [("steps", Json.JArray [Json.JObject []])]) /\
   spec_plan_shape (Json.JObject [("steps", Json.JArray [Json.JObject []])]) = false).
Proof. vm_compute. repeat split. Qed.

(** The shape of the specification is not empty: a response that has it. *)
Example spec_plan_shape_example :
  match Json.parse (Sample.json "{'steps': [{'title': 'Reseat', 'instruction': 'Push it in', 'audioPrompt': 'Now reseat', 'arOverlayType': 'arrow'}]}") with
  | Some v => spec_plan_shape v = true
  | None => False
  end.
Proof. vm_compute. reflexivity. Qed.

(** What [analyzeSituation] returns is installed as the plan as it is:
    [triggerAnalysis] checks nothing either. *)
Lemma accepted_result_is_installed
  (w : World) (view : Json.value -> AnalysisResult)
  (reply : GeminiService.Reply) (v : Json.value) :
  existsb isAnalysisRequest (inflight w) = true ->
  GeminiService.analyzeSituation reply = Fulfilled v ->
  let w' := dispatch (AnalysisSettled
                        (typed view (GeminiService.analyzeSituation reply))) w in
  analysis (hooks w') = Some (view v) /\
  state (hooks w') = ANALYSIS_COMPLETE /\
  isBusy (hooks w') = false.
Proof.
  intros Hp Hv. rewrite Hv. unfold dispatch. rewrite Hp. repeat split.
Qed.

(** C3, as amended.  When the analysis call fails, by a failed request or by
    a text that is not JSON (the code has no other check), the session goes
    to the home screen with [isBusy] false and the plan cell as it was; the
    two image cells are left as they were, and it is the next choice of a
    mode on the home screen that empties them. *)
Theorem analysis_failure_returns_home
  (w : World) (view : Json.value -> AnalysisResult)
  (reply : GeminiService.Reply) (m : AppMode) :
  existsb isAnalysisRequest (inflight w) = true ->
  is_rejected (GeminiService.analyzeSituation reply) = true ->
  let w' := dispatch (AnalysisSettled
                        (typed view (GeminiService.analyzeSituation reply))) w in
  state (hooks w') = HOME /\
  isBusy (hooks w') = false /\
  analysis (hooks w') = analysis (hooks w) /\
  wideImage (hooks w') = wideImage (hooks w) /\
  macroImage (hooks w') = macroImage (hooks w) /\
  wideImage (hooks (dispatch (SelectMode m) w')) = None /\
  macroImage (hooks (dispatch (SelectMode m) w')) = None.
Proof.
  intros Hp Hr w'. subst w'.
  destruct (GeminiService.analyzeSituation reply) as [v|e]; [discriminate|].
  assert (E : dispatch (AnalysisSettled (typed view (Rejected e))) w
              = exec (triggerAnalysis_resume (Rejected e))
                  (settle isAnalysisRequest w))
    by (unfold dispatch; rewrite Hp; reflexivity).
  rewrite E. repeat split.
Qed.

Lemma analysis_failure_returns_home_witness :
  let w := run (Sample.toCaptureReady ++ [Analyze]) initial in
  let reply := GeminiService.Response (Some "{ steps: oops") in
  let w' := dispatch (AnalysisSettled
                        (typed (fun _ => Sample.plan0)
                           (GeminiService.analyzeSituation reply))) w in
  (existsb isAnalysisRequest (inflight w) = true /\
   is_rejected (GeminiService.analyzeSituation reply) = true) /\
  state (hooks w') = HOME /\
  isBusy (hooks w') = false /\
  analysis (hooks w') = analysis (hooks w).
Proof.
  intros w reply w'.
  assert (Hp : existsb isAnalysisRequest (inflight w) = true)
    by (vm_compute; reflexivity).
  assert (Hr : is_rejected (GeminiService.analyzeSituation reply) = true)
    by (vm_compute; reflexivity).
  destruct (analysis_failure_returns_home w (fun _ => Sample.plan0) reply
              FIRST_AID Hp Hr) as (H1 & H2 & H3 & _).
  split; [split; assumption | split; [exact H1 | split; [exact H2 | exact H3]]].
Defined.

(** C3, the claim as it was stated, fails (scenario C of the
    specification): the oracle answers with text that is not JSON; the
    session is on the home screen and not busy, and both images are still in
    their cells. *)
Lemma analysis_failure_keeps_images :
  let w := run (Sample.toCaptureReady
                ++ [Analyze;
                    AnalysisSettled
                      (typed (fun _ => Sample.plan0)
                         (GeminiService.analyzeSituation
                            (GeminiService.Response (Some "{ steps: oops"))))])
             initial in
  state (hooks w) = HOME /\ isBusy (hooks w) = false /\
  wideImage (hooks w) = Some "wide.jpg" /\
  macroImage (hooks w) = Some "macro.jpg" /\
  ~ (wideImage (hooks w) = None /\ macroImage (hooks w) = None).
Proof.
  vm_compute. repeat split. intros [H _]. discriminate H.
Qed.

(** ** The verification call *)

(** On a response, [verifyStep] does not reject: text that is not JSON gives
    the fallback. *)
Lemma verifyStep_on_response (text : option string) :
  GeminiService.verifyStep (GeminiService.Response text)
  = match Json.parse (or_else text "{}") with
    | Some v => Fulfilled v
    | None => Fulfilled GeminiService.fallback
    end.
Proof.
  unfold GeminiService.verifyStep.
  destruct (Json.parse (or_else text "{}")); reflexivity.
Qed.

(** C4.  The request of [verifyStep] fails: the failure leaves [verifyStep]
    as a rejection, not as the fallback feedback.  In [handleCapture], which
    has no [catch], nothing after the [await] runs: the session stays on the
    validation screen with no feedback to confirm. *)
Theorem verifyStep_request_failure_propagates
  (view : Json.value -> Feedback) (e : Thrown) :
  let settled := GeminiService.verifyStep (GeminiService.Failed e) in
  let w := run (Sample.toGuidance Sample.plan3
                ++ [SnapToVerify; Capture "work.jpg"]) initial in
  let w' := dispatch (VerifySettled (typed view settled)) w in
  settled = Rejected e /\
  settled <> Fulfilled GeminiService.fallback /\
  inflight w = [VerifyRequest "Do this: unplug" "work.jpg"] /\
  state (hooks w') = STEP_VALIDATION /\
  verificationFeedback (hooks w') = None /\
  feedbackCard (hooks w') = false.
Proof.
  cbv zeta. split; [reflexivity|]. split; [discriminate|].
  split; [vm_compute; reflexivity|].
  simpl GeminiService.verifyStep. unfold typed.
  vm_compute. repeat split.
Qed.

(** ** The busy flag *)

(** When the analysis call settles, either way, [isBusy] is false. *)
Lemma analysis_settled_not_busy (w : World) (result : Outcome AnalysisResult) :
  existsb isAnalysisRequest (inflight w) = true ->
  isBusy (hooks (dispatch (AnalysisSettled result) w)) = false.
Proof.
  intros H. unfold dispatch. rewrite H. destruct result; reflexivity.
Qed.

(** When the verification call is fulfilled, [isBusy] is false and the
    feedback is on the card. *)
Lemma verify_fulfilled_not_busy (w : World) (fb : Feedback) :
  existsb isVerifyRequest (inflight w) = true ->
  isBusy (hooks (dispatch (VerifySettled (Fulfilled fb)) w)) = false /\
  verificationFeedback (hooks (dispatch (VerifySettled (Fulfilled fb)) w)) = Some fb.
Proof.
  intros H. unfold dispatch. rewrite H. split; reflexivity.
Qed.

(** C5.  The verification call is rejected: no request is in flight any
    more and [isBusy] is still true.  [handleCapture] sets it before the
    [await] and clears it after, with no [finally] as [triggerAnalysis] has.
    The capture button, disabled while [isBusy], stays dead, on this screen
    and in any later session. *)
Theorem busy_stays_true_after_verify_rejection (e : Thrown) (data : string) :
  let w := run (Sample.toGuidance Sample.plan3
                ++ [SnapToVerify; Capture "work.jpg"]) initial in
  let w' := dispatch (VerifySettled (Rejected e)) w in
  let w'' := run [Close; SelectMode ROBOTICS] w' in
  (isBusy (hooks w) = true /\ List.length (inflight w) = 1%nat) /\
  (inflight w' = [] /\ isBusy (hooks w') = true) /\
  dispatch (Capture data) w' = w' /\
  (state (hooks w'') = INITIAL_CAPTURE /\ isBusy (hooks w'') = true /\
   dispatch (Capture data) w'' = w'').
Proof. vm_compute. repeat split. Qed.

(** *** No second request while one is in flight *)

Lemma quiet_refl w : quiet w w.
Proof. repeat split; auto. Qed.

Lemma quiet_trans w1 w2 w3 : quiet w1 w2 -> quiet w2 w3 -> quiet w1 w3.
Proof.
  intros (A1 & B1 & C1) (A2 & B2 & C2). repeat split; try congruence. auto.
Qed.

Lemma Quiet_ret {A} (a : A) : Quiet (ret a).
Proof. intros w. apply quiet_refl. Qed.

Lemma Quiet_throw {A} (e : Thrown) : Quiet (@throw A e).
Proof. intros w. apply quiet_refl. Qed.

Lemma Quiet_bind {A B} (m : Handler A) (k : A -> Handler B) :
  Quiet m -> (forall a, Quiet (k a)) -> Quiet (bind m k).
Proof.
  intros Hm Hk w. unfold bind. specialize (Hm w).
  destruct (m w) as [w1 [a|e]]; simpl in *; [|exact Hm].
  eapply quiet_trans; [exact Hm | apply Hk].
Qed.

Lemma Quiet_setState (v : AppState) : v <> CAPTURE_COMPLETE -> Quiet (setState v).
Proof. intros H w. repeat split. simpl. intros E. congruence. Qed.

Lemma Quiet_write_other (f : Hooks -> Hooks) :
  (forall h, state (f h) = state h /\ isBusy (f h) = isBusy h) -> Quiet (write f).
Proof.
  intros H w. unfold quiet, write. simpl. destruct (H (hooks w)) as [-> ->]. auto.
Qed.

Ltac quiet_tac :=
  lazymatch goal with
  | |- Quiet (bind _ _) => apply Quiet_bind; [quiet_tac | intros ?; quiet_tac]
  | |- Quiet (ret _) => apply Quiet_ret
  | |- Quiet (throw _) => apply Quiet_throw
  | |- Quiet (setState _) => apply Quiet_setState; discriminate
  | |- Quiet (stepsOf _) => unfold stepsOf; quiet_tac
  | |- Quiet (at_index _ _) => unfold at_index; quiet_tac
  | |- Quiet (match ?x with _ => _ end) => destruct x; quiet_tac
  | |- Quiet _ =>
      first [ apply Quiet_write_other; intros; split; reflexivity
            | intros ?; repeat split; auto ]
  end.

Lemma Quiet_proceedNext r : Quiet (proceedNext r).
Proof. unfold proceedNext. quiet_tac. Qed.

Ltac quiet_all :=
  lazymatch goal with
  | |- Quiet (proceedNext _) => apply Quiet_proceedNext
  | |- Quiet (bind _ _) => apply Quiet_bind; [quiet_all | intros ?; quiet_all]
  | |- Quiet (match ?x with _ => _ end) => destruct x; quiet_all
  | |- Quiet _ => quiet_tac
  end.

Lemma Quiet_intervalCallback r s n : Quiet (intervalCallback r s n).
Proof. unfold intervalCallback. quiet_all. Qed.

Lemma Quiet_startAssessment m : Quiet (startAssessment m).
Proof. unfold startAssessment. quiet_tac. Qed.
Lemma Quiet_retakeContext : Quiet retakeContext.
Proof. unfold retakeContext. quiet_tac. Qed.
Lemma Quiet_retakeDetail : Quiet retakeDetail.
Proof. unfold retakeDetail. quiet_tac. Qed.
Lemma Quiet_startGuidance r : Quiet (startGuidance r).
Proof. unfold startGuidance. quiet_tac. Qed.
Lemma Quiet_startGuidance_timeout r : Quiet (startGuidance_timeout r).
Proof. unfold startGuidance_timeout. quiet_tac. Qed.
Lemma Quiet_handleOverrideStart r n : Quiet (handleOverrideStart r n).
Proof. unfold handleOverrideStart. quiet_tac. Qed.
Lemma Quiet_handleOverrideEnd : Quiet handleOverrideEnd.
Proof. unfold handleOverrideEnd. quiet_tac. Qed.

Lemma quiet_one_request w w' : quiet w w' -> one_request w -> one_request w'.
Proof.
  intros (A & B & C) (Ha & Hb & Hc). unfold one_request.
  rewrite A, B. auto.
Qed.

Lemma one_request_exec {A} (m : Handler A) w :
  Quiet m -> one_request w -> one_request (exec m w).
Proof. intros Hm. apply quiet_one_request. apply Hm. Qed.

Lemma AppState_beq_true (a b : AppState) : AppState_beq a b = true -> a = b.
Proof. destruct a, b; simpl; congruence. Qed.

Lemma not_busy_no_request (w : World) :
  one_request w -> isBusy (hooks w) = false -> inflight w = [].
Proof.
  intros (_ & Hb & _) H. destruct (inflight w); [reflexivity|].
  rewrite Hb in H; discriminate.
Qed.

Lemma one_request_capture (data : string) (w : World) :
  one_request w -> one_request (dispatch (Capture data) w).
Proof.
  intros I. unfold dispatch.
  destruct (captureScreen (hooks w) && negb (isBusy (hooks w))) eqn:G; [|exact I].
  apply andb_true_iff in G as [_ G]. apply negb_true_iff in G.
  pose proof (not_busy_no_request w I G) as E.
  destruct w as [[st md wi ma ic an ix bz vd vf oh op] pi ivs nh tos inf sp].
  simpl in E, G. subst inf bz. clear I.
  unfold one_request, exec, handleCapture, stepsOf, at_index, bind. simpl.
  destruct (AppState_beq st INITIAL_CAPTURE) eqn:E1.
  - destruct (truthy wi); simpl; repeat split; intros; try lia; congruence.
  - destruct (AppState_beq st STEP_VALIDATION) eqn:E2; simpl.
    + apply AppState_beq_true in E2. subst st.
      destruct an as [a|]; simpl;
        [destruct (nth_error (steps a) ix); simpl|];
        repeat split; intros; try lia; congruence.
    + repeat split; intros; try lia; congruence.
Qed.

Lemma one_request_analyze (w : World) :
  one_request w -> one_request (dispatch Analyze w).
Proof.
  intros I. unfold dispatch, captureReadyScreen.
  destruct (AppState_beq (state (hooks w)) CAPTURE_COMPLETE) eqn:G; [|exact I].
  apply AppState_beq_true in G. destruct I as (_ & _ & Hc).
  specialize (Hc G).
  destruct w as [h pi ivs nh tos inf sp]. simpl in Hc. subst inf.
  repeat split; simpl; intros; try lia; discriminate.
Qed.

Lemma settle_last (p : Request -> bool) (w : World) :
  one_request w -> existsb p (inflight w) = true ->
  inflight (settle p w) = [].
Proof.
  intros (Ha & _) H. unfold settle. simpl.
  destruct (inflight w) as [|q [|q' l]]; simpl in *; try discriminate; try lia.
  rewrite orb_false_r in H. rewrite H. reflexivity.
Qed.

Lemma one_request_analysis_settled (result : Outcome AnalysisResult) (w : World) :
  one_request w -> one_request (dispatch (AnalysisSettled result) w).
Proof.
  intros I. unfold dispatch.
  destruct (existsb isAnalysisRequest (inflight w)) eqn:G; [|exact I].
  pose proof (settle_last _ w I G) as E.
  assert (F : inflight (exec (triggerAnalysis_resume result)
                          (settle isAnalysisRequest w)) = []).
  { destruct result; unfold exec; simpl; exact E. }
  unfold one_request. rewrite F. repeat split; simpl; intros; try lia; congruence.
Qed.

Lemma one_request_verify_settled (result : Outcome Feedback) (w : World) :
  one_request w -> one_request (dispatch (VerifySettled result) w).
Proof.
  intros I. unfold dispatch.
  destruct (existsb isVerifyRequest (inflight w)) eqn:G; [|exact I].
  pose proof (settle_last _ w I G) as E.
  assert (F : inflight (exec (handleCapture_resume result)
                          (settle isVerifyRequest w)) = []).
  { destruct result; unfold exec; simpl; exact E. }
  unfold one_request. rewrite F. repeat split; simpl; intros; try lia; congruence.
Qed.

Ltac quiet_event I :=
  match goal with
  | |- one_request (if ?g then _ else _) =>
      destruct g; [apply one_request_exec; [|exact I] | exact I]
  end.

Lemma one_request_step (e : Event) (w : World) :
  one_request w -> one_request (dispatch e w).
Proof.
  intros I. destruct e.
  - unfold dispatch. quiet_event I. apply Quiet_startAssessment.
  - apply one_request_capture, I.
  - unfold dispatch. quiet_event I. apply Quiet_retakeContext.
  - unfold dispatch. quiet_event I. apply Quiet_retakeDetail.
  - apply one_request_analyze, I.
  - apply one_request_analysis_settled, I.
  - unfold dispatch. quiet_event I. apply Quiet_startGuidance.
  - unfold dispatch. destruct (timeouts w); [exact I|].
    apply one_request_exec; [apply Quiet_startGuidance_timeout|].
    apply (quiet_one_request w); [repeat split; auto | exact I].
  - unfold dispatch. quiet_event I. apply Quiet_handleOverrideStart.
  - unfold dispatch. quiet_event I. apply Quiet_handleOverrideEnd.
  - unfold dispatch. destruct (find _ _); [|exact I].
    apply one_request_exec; [apply Quiet_intervalCallback | exact I].
  - unfold dispatch. quiet_event I. quiet_tac.
  - apply one_request_verify_settled, I.
  - unfold dispatch. destruct (verificationFeedback _); [|exact I].
    quiet_event I. quiet_tac.
  - unfold dispatch. quiet_event I. apply Quiet_proceedNext.
  - unfold dispatch. quiet_event I. quiet_tac.
Qed.

Lemma run_snoc (es : list Event) (e : Event) (w : World) :
  run (es ++ [e]) w = dispatch e (run es w).
Proof. unfold run. rewrite fold_left_app. reflexivity. Qed.

(** In every state the component can be in, at most one request is in
    flight and [isBusy] is true while it is: the capture button is disabled
    by [isBusy], and the analysis button is on a screen that is only entered
    with [isBusy] false. *)
Lemma one_request_reachable (w : World) : reachable w -> one_request w.
Proof.
  intros [es <-]. induction es as [|e es IH] using rev_ind.
  - repeat split; simpl; intros; try lia; congruence.
  - rewrite run_snoc. apply one_request_step. exact IH.
Qed.

(** ** The index of the active step *)

(** C6, the claim as it was stated, fails.  First run: the analysis call is
    fulfilled with a result whose [steps] is the empty array (the response
    schema sent with the request puts no lower bound on its length);
    [startGuidance] and its time-out do not look at the length, and the
    session is on the guidance screen at index 0 of a plan of no step.
    Second run: a hold is started at step 1 of a plan of three steps and the
    session is closed without the button being released; a plan of one step
    is installed while the timer of the hold is live; its sample at full
    progress runs the [proceedNext] of the old render and the session is on
    the guidance screen at index 2 of a plan of one step. *)
Lemma guidance_index_out_of_range :
  (let w := run (Sample.toGuidance Sample.plan0) initial in
   state (hooks w) = GUIDANCE /\
   analysis (hooks w) = Some Sample.plan0 /\
   currentStepIdx (hooks w) = 0%nat /\
   ~ (currentStepIdx (hooks w) < List.length (steps Sample.plan0))%nat) /\
  (let w := run (Sample.toFeedback Sample.plan3 Sample.ok
                 ++ [ConfirmProceed; OverridePointerDown 1000; Close]
                 ++ Sample.toCaptureReady
                 ++ [Analyze; AnalysisSettled (Fulfilled Sample.plan1);
                     IntervalTick 1 2500]) initial in
   state (hooks w) = GUIDANCE /\
   analysis (hooks w) = Some Sample.plan1 /\
   currentStepIdx (hooks w) = 2%nat /\
   ~ (currentStepIdx (hooks w) < List.length (steps Sample.plan1))%nat).
Proof.
  split; vm_compute; repeat split; intros H; repeat (apply le_S_n in H); inversion H.
Qed.

(** *** The index along a run *)

Lemma tame_refl r w : tame r w w.
Proof. repeat split; auto using incl_refl. Qed.

Lemma tame_trans r w1 w2 w3 : tame r w1 w2 -> tame r w2 w3 -> tame r w1 w3.
Proof.
  intros (A1 & C1 & D1 & E1) (A2 & C2 & D2 & E2).
  repeat split; try congruence.
  - eapply incl_tran; eassumption.
  - intros G. destruct (E2 G) as [[S2 I2]|R]; [|right; exact R].
    rewrite S2, I2. apply E1. unfold guiding in *. rewrite <- S2. exact G.
Qed.

Lemma Tame_ret {A} r (a : A) : Tame r (ret a).
Proof. intros w. apply tame_refl. Qed.

Lemma Tame_throw {A} r (e : Thrown) : Tame r (@throw A e).
Proof. intros w. apply tame_refl. Qed.

Lemma Tame_bind {A B} r (m : Handler A) (k : A -> Handler B) :
  Tame r m -> (forall a, Tame r (k a)) -> Tame r (bind m k).
Proof.
  intros Hm Hk w. unfold bind. specialize (Hm w).
  destruct (m w) as [w1 [a|e]]; simpl in *; [|exact Hm].
  eapply tame_trans; [exact Hm | apply Hk].
Qed.

Lemma Tame_setState r (v : AppState) :
  v <> GUIDANCE -> v <> STEP_VALIDATION -> Tame r (setState v).
Proof.
  intros H1 H2 w. repeat split; auto using incl_refl.
  unfold guiding. simpl. intros [G|G]; congruence.
Qed.

Lemma Tame_write r (f : Hooks -> Hooks) :
  (forall h, state (f h) = state h /\ analysis (f h) = analysis h /\
             currentStepIdx (f h) = currentStepIdx h) ->
  Tame r (write f).
Proof.
  intros H w. unfold tame, write. simpl.
  destruct (H (hooks w)) as (-> & -> & ->). repeat split; auto using incl_refl.
Qed.

Lemma Tame_clearInterval r n : Tame r (clearInterval n).
Proof.
  intros w. repeat split; auto. simpl. intros t Ht.
  apply filter_In in Ht. tauto.
Qed.

Lemma proceedNext_analysis (r : Hooks) (w : World) :
  analysis (hooks (exec (proceedNext r) w)) = analysis (hooks w).
Proof.
  unfold exec, proceedNext, stepsOf, at_index, bind.
  destruct (analysis r) as [a|]; simpl; [|auto].
  destruct (Z.of_nat (currentStepIdx r) <? Z.of_nat (List.length (steps a)) - 1)%Z;
    simpl; [|auto].
  destruct (nth_error (steps a) (currentStepIdx r + 1)); simpl; auto.
Qed.

Lemma Tame_proceedNext r : Tame r (proceedNext r).
Proof.
  intros w. destruct (proceedNext_frame r w) as (Hi & _ & _ & Ht).
  pose proof (proceedNext_analysis r w) as Ha. unfold exec in *.
  repeat split; auto.
  - rewrite Hi. apply incl_refl.
  - intros G. destruct (analysis r) as [a|] eqn:E.
    + pose proof (proceedNext_cells r a E w) as P. cbv zeta in P. unfold exec in P.
      destruct (currentStepIdx r + 1 <? List.length (steps a))%nat eqn:L.
      * apply Nat.ltb_lt in L. destruct P as (_ & P & _).
        right. exists a. rewrite P. auto.
      * destruct P as (P & _). destruct G as [G|G]; congruence.
    + left. unfold proceedNext, stepsOf. rewrite E. simpl. auto.
Qed.

Ltac tame_tac :=
  lazymatch goal with
  | |- Tame _ (proceedNext _) => apply Tame_proceedNext
  | |- Tame _ (bind _ _) => apply Tame_bind; [tame_tac | intros ?; tame_tac]
  | |- Tame _ (ret _) => apply Tame_ret
  | |- Tame _ (throw _) => apply Tame_throw
  | |- Tame _ (setState _) => apply Tame_setState; discriminate
  | |- Tame _ (clearInterval _) => apply Tame_clearInterval
  | |- Tame _ (stepsOf _) => unfold stepsOf; tame_tac
  | |- Tame _ (at_index _ _) => unfold at_index; tame_tac
  | |- Tame _ (match ?x with _ => _ end) => destruct x; tame_tac
  | |- Tame _ _ =>
      first [ apply Tame_write; intros; repeat split; reflexivity
            | intros ?; repeat split; auto using incl_refl ]
  end.

Lemma Tame_startAssessment r m : Tame r (startAssessment m).
Proof. unfold startAssessment. tame_tac. Qed.
Lemma Tame_handleCapture r r' d : Tame r (handleCapture r' d).
Proof. unfold handleCapture. tame_tac. Qed.
Lemma Tame_handleCapture_resume r o : Tame r (handleCapture_resume o).
Proof. unfold handleCapture_resume. tame_tac. Qed.
Lemma Tame_triggerAnalysis r r' : Tame r (triggerAnalysis r').
Proof. unfold triggerAnalysis. tame_tac. Qed.
Lemma Tame_retakeContext r : Tame r retakeContext.
Proof. unfold retakeContext. tame_tac. Qed.
Lemma Tame_retakeDetail r : Tame r retakeDetail.
Proof. unfold retakeDetail. tame_tac. Qed.
Lemma Tame_handleOverrideEnd r : Tame r handleOverrideEnd.
Proof. unfold handleOverrideEnd. tame_tac. Qed.
Lemma Tame_intervalCallback r s n : Tame r (intervalCallback r s n).
Proof. unfold intervalCallback. tame_tac. Qed.

Lemma Forall_incl {A} (P : A -> Prop) (l l' : list A) :
  incl l' l -> Forall P l -> Forall P l'.
Proof. intros I F. apply Forall_forall. intros x Hx. rewrite Forall_forall in F. auto. Qed.

Lemma tame_bounded r w w' :
  analysis r = analysis (hooks w) ->
  tame r w w' -> bounded w -> bounded w'.
Proof.
  intros Hr (A & C & D & E) (H1 & H2 & H3 & H4). unfold bounded.
  rewrite A, C. repeat split; auto.
  - intros G. destruct (E G) as [[S I]|(a & Ha & Hi)].
    + destruct H3 as (a & Ha & Hi). { unfold guiding in *. rewrite <- S. exact G. }
      exists a. rewrite A, I. auto.
    + exists a. rewrite A, <- Hr. auto.
  - apply (Forall_incl _ _ _ D H4).
Qed.

Lemma bounded_exec {A} r (m : Handler A) w :
  analysis r = analysis (hooks w) ->
  Tame r m -> bounded w -> bounded (exec m w).
Proof. intros Hr Hm. apply (tame_bounded r); [exact Hr | apply Hm]. Qed.

Ltac tame_event I :=
  match goal with
  | |- bounded (if ?g then exec _ ?w else _) =>
      destruct g;
      [apply (bounded_exec (hooks w)); [reflexivity | | exact I] | exact I]
  end.

Lemma settle_tame r p w : tame r w (settle p w).
Proof. repeat split; auto using incl_refl. Qed.

Lemma bounded_analysis_settled (result : Outcome AnalysisResult) (w : World) :
  bounded w -> step_ok (AnalysisSettled result) w ->
  bounded (dispatch (AnalysisSettled result) w).
Proof.
  intros I Hok. unfold dispatch.
  destruct (existsb isAnalysisRequest (inflight w)); [|exact I].
  destruct result as [a|e].
  - destruct Hok as [Hs Hi]. destruct I as (H1 & H2 & H3 & H4).
    unfold bounded, exec. simpl. rewrite Hi.
    split; [|split; [reflexivity | split; [|constructor]]].
    + intros a' [= <-]. exact Hs.
    + unfold guiding. simpl. intros [G|G]; discriminate.
  - apply (tame_bounded (hooks w) w); [reflexivity | | exact I].
    repeat split; auto using incl_refl.
    unfold guiding, exec. simpl. intros [G|G]; discriminate.
Qed.

Lemma bounded_deploy (w : World) :
  bounded w -> bounded (dispatch DeployInstructions w).
Proof.
  intros I. unfold dispatch, resultScreen.
  destruct (AppState_beq (state (hooks w)) ANALYSIS_COMPLETE && present (analysis (hooks w)))
    eqn:G; [|exact I].
  apply andb_true_iff in G as [_ G].
  destruct I as (H1 & H2 & H3 & H4). unfold bounded, exec. simpl.
  split; [exact H1 | split; [intros _; exact G | split; [|exact H4]]].
  unfold guiding. simpl. intros [X|X]; discriminate.
Qed.

Lemma bounded_timeout (w : World) :
  bounded w -> bounded (dispatch TimeoutElapsed w).
Proof.
  intros I. unfold dispatch. destruct (timeouts w) as [|r rest] eqn:T; [exact I|].
  destruct I as (H1 & H2 & H3 & H4).
  assert (P : present (analysis (hooks w)) = true) by (apply H2; rewrite T; discriminate).
  destruct (analysis (hooks w)) as [a|] eqn:Ea; [|discriminate].
  assert (F : exists w', exec (startGuidance_timeout r) (dropTimeout w) = w' /\
                         hooks w' = hooks (exec (setState GUIDANCE ;; setCurrentStepIdx 0) w) /\
                         timeouts w' = rest /\ intervals w' = intervals w).
  { eexists. split; [reflexivity|]. unfold exec, startGuidance_timeout, bind. simpl.
    rewrite T.
    destruct (analysis r) as [a'|]; [destruct (steps a')|]; simpl; auto. }
  destruct F as (w' & -> & Fh & Ft & Fi).
  unfold bounded. rewrite Fh, Ft, Fi. unfold exec. simpl. rewrite Ea.
  split; [exact H1 | split; [reflexivity | split; [|exact H4]]].
  intros _. exists a. split; [reflexivity|]. simpl.
  specialize (H1 a eq_refl). destruct (steps a); [congruence | simpl; lia].
Qed.

Lemma bounded_pointer_down (now : Z) (w : World) :
  bounded w -> bounded (dispatch (OverridePointerDown now) w).
Proof.
  intros I. unfold dispatch, guidanceScreen.
  destruct (AppState_beq (state (hooks w)) GUIDANCE && present (analysis (hooks w)))
    eqn:G; [|exact I].
  apply andb_true_iff in G as [G _]. apply AppState_beq_true in G.
  destruct I as (H1 & H2 & H3 & H4). unfold bounded, exec. simpl.
  split; [exact H1 | split; [exact H2 | split]].
  - intros _. apply H3. left. exact G.
  - apply Forall_app. split; [exact H4|].
    constructor; [|constructor]. simpl. split; [reflexivity|].
    apply H3. left. exact G.
Qed.

Lemma bounded_tick (n : nat) (now : Z) (w : World) :
  bounded w -> bounded (dispatch (IntervalTick n now) w).
Proof.
  intros I. unfold dispatch.
  destruct (find (fun t => Nat.eqb (handle t) n) (intervals w)) as [t|] eqn:F;
    [|exact I].
  apply find_some in F as [F _].
  assert (Ht : analysis (render t) = analysis (hooks w)).
  { destruct I as (_ & _ & _ & H4). rewrite Forall_forall in H4.
    apply (H4 t F). }
  apply (bounded_exec (render t)); [exact Ht | apply Tame_intervalCallback | exact I].
Qed.

Lemma bounded_snap (w : World) :
  bounded w -> bounded (dispatch SnapToVerify w).
Proof.
  intros I. unfold dispatch, guidanceScreen.
  destruct (AppState_beq (state (hooks w)) GUIDANCE && present (analysis (hooks w)))
    eqn:G; [|exact I].
  apply andb_true_iff in G as [G _]. apply AppState_beq_true in G.
  destruct I as (H1 & H2 & H3 & H4). unfold bounded, exec. simpl.
  split; [exact H1 | split; [exact H2 | split; [|exact H4]]].
  intros _. apply H3. left. exact G.
Qed.

Lemma bounded_step (e : Event) (w : World) :
  bounded w -> step_ok e w -> bounded (dispatch e w).
Proof.
  intros I Hok. destruct e.
  - unfold dispatch. tame_event I. apply Tame_startAssessment.
  - unfold dispatch. destruct (_ && _); [|exact I].
    apply (bounded_exec (hooks w)); [reflexivity | apply Tame_handleCapture |].
    apply (bounded_exec (hooks w)); [reflexivity | tame_tac | exact I].
  - unfold dispatch. tame_event I. apply Tame_retakeContext.
  - unfold dispatch. tame_event I. apply Tame_retakeDetail.
  - unfold dispatch. tame_event I. apply Tame_triggerAnalysis.
  - apply bounded_analysis_settled; assumption.
  - apply bounded_deploy, I.
  - apply bounded_timeout, I.
  - apply bounded_pointer_down, I.
  - unfold dispatch. tame_event I. apply Tame_handleOverrideEnd.
  - apply bounded_tick, I.
  - apply bounded_snap, I.
  - unfold dispatch. destruct (existsb _ _); [|exact I].
    apply (bounded_exec (hooks w)); [reflexivity | apply Tame_handleCapture_resume |].
    apply (tame_bounded (hooks w) w); [reflexivity | apply settle_tame | exact I].
  - unfold dispatch. destruct (verificationFeedback _); [|exact I].
    tame_event I. tame_tac.
  - unfold dispatch. tame_event I. apply Tame_proceedNext.
  - unfold dispatch. tame_event I. tame_tac.
Qed.

Lemma bounded_run (es : list Event) (w : World) :
  bounded w -> run_ok es w -> bounded (run es w).
Proof.
  revert w. induction es as [|e es IH]; intros w I Hok; [exact I|].
  destruct Hok as [H1 H2]. simpl. apply IH; [|exact H2].
  apply bounded_step; assumption.
Qed.

Lemma bounded_initial : bounded initial.
Proof.
  repeat split; simpl; try congruence.
  - unfold guiding. simpl. intros [G|G]; discriminate.
  - constructor.
Qed.

(** C6, as amended.  Along every run from the initial state in which each
    plan that the analysis call delivers has at least one step and none is
    delivered while a timer of an override hold is live, a session on the
    guidance screen or on the validation screen has a plan, and its index is
    below the number of steps of that plan. *)
Theorem index_in_range (es : list Event) :
  run_ok es initial ->
  let h := hooks (run es initial) in
  state h = GUIDANCE \/ state h = STEP_VALIDATION ->
  exists a, analysis h = Some a /\
            (currentStepIdx h < List.length (steps a))%nat.
Proof.
  intros Hok h G.
  destruct (bounded_run es initial bounded_initial Hok) as (_ & _ & H3 & _).
  apply H3. exact G.
Qed.

Lemma index_in_range_witness :
  let es := (Sample.toFeedback Sample.plan3 Sample.looseWire
             ++ [ConfirmProceed; OverridePointerDown 1000; IntervalTick 1 2500])%list in
  run_ok es initial /\
  state (hooks (run es initial)) = GUIDANCE /\
  exists a, analysis (hooks (run es initial)) = Some a /\
            (currentStepIdx (hooks (run es initial)) < List.length (steps a))%nat.
Proof.
  intros es.
  assert (Hok : run_ok es initial).
  { vm_compute. repeat split; try discriminate. }
  assert (Hs : state (hooks (run es initial)) = GUIDANCE)
    by (vm_compute; reflexivity).
  split; [exact Hok | split; [exact Hs|]].
  apply (index_in_range es Hok). left. exact Hs.
Defined.

(** ** The scenarios of the specification *)

(** Scenario A: three steps; the first verification fails with
    [loose wire], the capture is retried, the second succeeds, and
    [Confirm & Proceed] brings the session to step 1. *)
Example scenario_A :
  let w1 := run (Sample.toFeedback Sample.plan3 Sample.looseWire) initial in
  let w2 := run [RetryCapture; Capture "again.jpg";
                 VerifySettled (Fulfilled Sample.ok); ConfirmProceed] w1 in
  (state (hooks w1) = STEP_VALIDATION /\
   verificationFeedback (hooks w1) = Some Sample.looseWire) /\
  state (hooks w2) = GUIDANCE /\ currentStepIdx (hooks w2) = 1%nat /\
  verificationFeedback (hooks w2) = None /\ isBusy (hooks w2) = false.
Proof. vm_compute. repeat split. Qed.

(** Scenario D, for a response that is not JSON: the fallback feedback. *)
Example scenario_D_unparsable :
  GeminiService.verifyStep (GeminiService.Response (Some "<html>Bad gateway</html>"))
  = Fulfilled GeminiService.fallback.
Proof. vm_compute. reflexivity. Qed.

(** * The rest of the component *)

(** ** What every session keeps *)

Lemma steady_refl r w : steady r w w.
Proof. unfold steady. repeat split; auto using incl_refl. Qed.

Lemma steady_trans r w1 w2 w3 :
  steady r w1 w2 -> steady r w2 w3 -> steady r w1 w3.
Proof.
  intros (A1 & B1 & C1 & D1 & E1 & F1 & G1 & H1)
         (A2 & B2 & C2 & D2 & E2 & F2 & G2 & H2).
  unfold steady. repeat split; try congruence.
  - eapply incl_tran; eassumption.
  - intros G. pose proof (G2 G) as S. rewrite S in *. rewrite <- (G1 G). reflexivity.
  - intros G. destruct (H2 G) as [S|P]; [|right; exact P]. apply H1, S.
Qed.

Lemma Steady_ret {A} r (a : A) : Steady r (ret a).
Proof. intros w. apply steady_refl. Qed.

Lemma Steady_throw {A} r (e : Thrown) : Steady r (@throw A e).
Proof. intros w. apply steady_refl. Qed.

Lemma Steady_bind {A B} r (m : Handler A) (k : A -> Handler B) :
  Steady r m -> (forall a, Steady r (k a)) -> Steady r (bind m k).
Proof.
  intros Hm Hk w. unfold bind. specialize (Hm w).
  destruct (m w) as [w1 [a|e]]; simpl in *; [|exact Hm].
  eapply steady_trans; [exact Hm | apply Hk].
Qed.

Lemma Steady_setState r (v : AppState) :
  gated v = false -> v <> GUIDANCE -> Steady r (setState v).
Proof.
  intros H1 H2 w. unfold steady. simpl.
  repeat split; auto using incl_refl; intros; congruence.
Qed.

Lemma Steady_enter_guidance r :
  present (analysis r) = true -> Steady r (setState GUIDANCE).
Proof.
  intros P w. unfold steady. simpl.
  repeat split; auto using incl_refl; intros; discriminate.
Qed.

Lemma Steady_write r (f : Hooks -> Hooks) :
  (forall h, state (f h) = state h /\ analysis (f h) = analysis h /\
             wideImage (f h) = wideImage h /\
             voiceDescription (f h) = voiceDescription h) ->
  Steady r (write f).
Proof.
  intros H w. unfold steady, write. simpl.
  destruct (H (hooks w)) as (-> & -> & -> & ->). repeat split; auto using incl_refl.
Qed.

Lemma Steady_clearInterval r n : Steady r (clearInterval n).
Proof.
  intros w. unfold steady. simpl. repeat split; auto.
  intros t Ht. apply filter_In in Ht. tauto.
Qed.

Ltac steady_tac :=
  lazymatch goal with
  | |- Steady _ (bind _ _) => apply Steady_bind; [steady_tac | intros ?; steady_tac]
  | |- Steady _ (ret _) => apply Steady_ret
  | |- Steady _ (throw _) => apply Steady_throw
  | |- Steady _ (setState GUIDANCE) => apply Steady_enter_guidance; assumption
  | |- Steady _ (setState _) => apply Steady_setState; [reflexivity | discriminate]
  | |- Steady _ (clearInterval _) => apply Steady_clearInterval
  | |- Steady _ (stepsOf ?x) => unfold stepsOf; destruct x eqn:?; steady_tac
  | |- Steady _ (at_index _ _) => unfold at_index; steady_tac
  | |- Steady _ (match ?x with _ => _ end) => destruct x; steady_tac
  | |- Steady _ _ =>
      first [ apply Steady_write; intros; repeat split; reflexivity
            | intros ?; unfold steady; repeat split; auto using incl_refl ]
  end.

Lemma Steady_proceedNext r : Steady r (proceedNext r).
Proof.
  unfold proceedNext, stepsOf. destruct (analysis r) as [a|] eqn:E.
  - assert (P : present (analysis r) = true) by (rewrite E; reflexivity).
    steady_tac.
  - intros w. apply steady_refl.
Qed.

Ltac steady_all :=
  lazymatch goal with
  | |- Steady _ (proceedNext _) => apply Steady_proceedNext
  | |- Steady _ (bind _ _) => apply Steady_bind; [steady_all | intros ?; steady_all]
  | |- Steady _ (match ?x with _ => _ end) => destruct x; steady_all
  | |- Steady _ _ => steady_tac
  end.

Lemma Steady_intervalCallback r s n : Steady r (intervalCallback r s n).
Proof. unfold intervalCallback. steady_all. Qed.
Lemma Steady_retakeDetail r : Steady r retakeDetail.
Proof. unfold retakeDetail. steady_tac. Qed.
Lemma Steady_handleOverrideEnd r : Steady r handleOverrideEnd.
Proof. unfold handleOverrideEnd. steady_tac. Qed.
Lemma Steady_handleCapture_resume r o : Steady r (handleCapture_resume o).
Proof. unfold handleCapture_resume. steady_tac. Qed.

Lemma steady_coherent r w w' :
  (present (analysis r) = true -> present (analysis (hooks w)) = true) ->
  steady r w w' -> coherent w -> coherent w'.
Proof.
  intros Hr (A & B & C & D & E & F & G & H) ((I1 & I2) & I3 & I4 & I5 & I6 & I7 & I8).
  unfold coherent. cbv zeta. rewrite A, B, C, D, E.
  split; [split|split; [exact I3|split; [|split; [|split; [|split; [|exact I8]]]]]].
  - intros X. apply I1. rewrite <- X. symmetry. apply G. rewrite X. reflexivity.
  - intros X. apply I2. rewrite <- X. symmetry. apply G. rewrite X. reflexivity.
  - intros X. apply I4. rewrite <- X. symmetry. apply G. rewrite X. reflexivity.
  - intros [X|[X|[X|X]]].
    + apply I5. left. rewrite <- X. symmetry. apply G. rewrite X. reflexivity.
    + destruct (H X) as [Y|Y]; [apply I5; auto | apply Hr, Y].
    + apply I5. auto.
    + apply I5. right. right. right. intros N.
      destruct (intervals w') as [|t l]; [congruence|].
      specialize (F t (or_introl eq_refl)). rewrite N in F. exact F.
  - intros X. apply I6. rewrite <- X. symmetry. apply G. rewrite X. reflexivity.
  - intros X. apply I7. rewrite <- X. symmetry. apply G. rewrite X. reflexivity.
Qed.

Lemma coherent_exec {A} r (m : Handler A) w :
  (present (analysis r) = true -> present (analysis (hooks w)) = true) ->
  Steady r m -> coherent w -> coherent (exec m w).
Proof. intros Hr Hm. apply (steady_coherent r); [exact Hr | apply Hm]. Qed.

Ltac steady_event I :=
  match goal with
  | |- coherent (if ?g then exec _ ?w else _) =>
      destruct g;
      [apply (coherent_exec (hooks w)); [auto | | exact I] | exact I]
  end.

Lemma coherent_select (m : AppMode) (w : World) :
  coherent w -> coherent (dispatch (SelectMode m) w).
Proof.
  intros I. unfold dispatch. destruct (AppState_beq _ _); [|exact I].
  destruct I as ((I1 & I2) & I3 & I4 & I5 & I6 & I7 & I8).
  unfold coherent, exec. simpl.
  repeat split; try discriminate; auto.
  intros [X|[X|X]]; try discriminate; auto.
Qed.

Lemma coherent_retake_context (w : World) :
  coherent w -> coherent (dispatch RetakeContext w).
Proof.
  intros I. unfold dispatch. destruct (captureReadyScreen _); [|exact I].
  destruct I as ((I1 & I2) & I3 & I4 & I5 & I6 & I7 & I8).
  unfold coherent, exec. simpl.
  repeat split; try discriminate; auto.
  intros [X|[X|X]]; try discriminate; auto.
Qed.

Lemma Forall_snoc {A} (P : A -> Prop) (l : list A) (a : A) :
  Forall P l -> P a -> Forall P (l ++ [a]).
Proof. intros H Ha. apply Forall_app. split; [exact H | constructor; [exact Ha | constructor]]. Qed.

Lemma coherent_capture (data : string) (w : World) :
  coherent w -> coherent (dispatch (Capture data) w).
Proof.
  intros I. unfold dispatch.
  destruct (captureScreen (hooks w) && negb (isBusy (hooks w))); [|exact I].
  destruct I as ((I1 & I2) & I3 & I4 & I5 & I6 & I7 & I8).
  destruct w as [[st md wi ma ic an ix bz vd vf oh op] pi ivs nh tos inf sp].
  simpl in *.
  unfold coherent, exec, handleCapture, stepsOf, at_index, bind. simpl.
  destruct (AppState_beq st INITIAL_CAPTURE) eqn:E1.
  - apply AppState_beq_true in E1. subst st.
    destruct (truthy wi) eqn:T; simpl;
      repeat split; try discriminate; auto;
      intros [X|[X|X]]; try discriminate; auto.
  - destruct (AppState_beq st STEP_VALIDATION) eqn:E2; simpl.
    + apply AppState_beq_true in E2. subst st.
      destruct an as [a|]; simpl;
        [destruct (nth_error (steps a) ix); simpl|];
        repeat split; try discriminate; auto;
        try (intros [X|[X|X]]; try discriminate; auto; fail).
      apply Forall_snoc; simpl; auto.
    + repeat split; auto.
Qed.

Lemma Forall_remove_first {A} (P : A -> Prop) (p : A -> bool) (l : list A) :
  Forall P l -> Forall P (remove_first p l).
Proof.
  induction 1 as [|a l Ha Hl IH]; simpl; [constructor|].
  destruct (p a); [exact Hl | constructor; assumption].
Qed.

Lemma analysis_request_stays (l : list Request) :
  existsb isAnalysisRequest (remove_first isVerifyRequest l)
  = existsb isAnalysisRequest l.
Proof.
  induction l as [|q l IH]; [reflexivity|].
  destruct q; simpl; reflexivity.
Qed.

Lemma coherent_analyze (w : World) :
  coherent w -> coherent (dispatch Analyze w).
Proof.
  intros I. unfold dispatch, captureReadyScreen.
  destruct (AppState_beq (state (hooks w)) CAPTURE_COMPLETE) eqn:G; [|exact I].
  apply AppState_beq_true in G.
  destruct I as ((I1 & I2) & I3 & I4 & I5 & I6 & I7 & I8).
  unfold coherent, exec. simpl. rewrite I3. simpl.
  repeat split; try discriminate; auto.
  - intros [X|[X|X]]; try discriminate; auto.
  - intros _. rewrite existsb_app. simpl. apply orb_true_r.
  - apply Forall_snoc; simpl; auto.
Qed.

Lemma coherent_analysis_settled (result : Outcome AnalysisResult) (w : World) :
  coherent w -> coherent (dispatch (AnalysisSettled result) w).
Proof.
  intros I. unfold dispatch.
  destruct (existsb isAnalysisRequest (inflight w)); [|exact I].
  destruct I as ((I1 & I2) & I3 & I4 & I5 & I6 & I7 & I8).
  destruct result as [a|e]; unfold coherent, exec; simpl;
    repeat split; try discriminate; auto using Forall_remove_first.
  intros [X|[X|X]]; try discriminate; auto.
Qed.

Lemma coherent_deploy (w : World) :
  coherent w -> coherent (dispatch DeployInstructions w).
Proof.
  intros I. unfold dispatch, resultScreen.
  destruct (AppState_beq (state (hooks w)) ANALYSIS_COMPLETE && present (analysis (hooks w)))
    eqn:G; [|exact I].
  apply andb_true_iff in G as [_ G].
  destruct I as ((I1 & I2) & I3 & I4 & I5 & I6 & I7 & I8).
  unfold coherent, exec. simpl.
  repeat split; try discriminate; auto.
  intros _ N. apply app_eq_nil in N as [_ N]. discriminate.
Qed.

Lemma coherent_timeout (w : World) :
  coherent w -> coherent (dispatch TimeoutElapsed w).
Proof.
  intros I. unfold dispatch. destruct (timeouts w) as [|r rest] eqn:T; [exact I|].
  destruct I as ((I1 & I2) & I3 & I4 & I5 & I6 & I7 & I8).
  assert (P : present (analysis (hooks w)) = true).
  { apply I5. right. right. left. rewrite T. discriminate. }
  assert (F : exists w', exec (startGuidance_timeout r) (dropTimeout w) = w' /\
                         hooks w' = hooks (exec (setState GUIDANCE ;; setCurrentStepIdx 0) w) /\
                         timeouts w' = rest /\ intervals w' = intervals w /\
                         inflight w' = inflight w).
  { eexists. split; [reflexivity|]. unfold exec, startGuidance_timeout, bind. simpl.
    rewrite T.
    destruct (analysis r) as [a'|]; [destruct (steps a')|]; simpl; auto. }
  destruct F as (w' & -> & Fh & Ft & Fi & Ff).
  unfold coherent. cbv zeta. rewrite Fh, Ft, Fi, Ff. unfold exec. simpl.
  repeat split; try discriminate; auto.
Qed.

Lemma coherent_pointer_down (now : Z) (w : World) :
  coherent w -> coherent (dispatch (OverridePointerDown now) w).
Proof.
  intros I. unfold dispatch, guidanceScreen.
  destruct (AppState_beq (state (hooks w)) GUIDANCE && present (analysis (hooks w)))
    eqn:G; [|exact I].
  apply andb_true_iff in G as [_ G].
  destruct I as ((I1 & I2) & I3 & I4 & I5 & I6 & I7 & I8).
  unfold coherent, exec. simpl.
  repeat split; auto.
Qed.

Lemma coherent_tick (n : nat) (now : Z) (w : World) :
  coherent w -> coherent (dispatch (IntervalTick n now) w).
Proof.
  intros I. unfold dispatch.
  destruct (find (fun t => Nat.eqb (handle t) n) (intervals w)) as [t|] eqn:F;
    [|exact I].
  apply find_some in F as [F _].
  apply (coherent_exec (render t)); [|apply Steady_intervalCallback | exact I].
  intros _. destruct I as (_ & _ & _ & I5 & _). apply I5.
  right. right. right. intros N. rewrite N in F. exact F.
Qed.

Lemma settle_verify_coherent (w : World) :
  coherent w -> coherent (settle isVerifyRequest w).
Proof.
  intros ((I1 & I2) & I3 & I4 & I5 & I6 & I7 & I8).
  unfold coherent. simpl. rewrite analysis_request_stays.
  repeat split; auto using Forall_remove_first.
Qed.

Lemma coherent_step (e : Event) (w : World) :
  coherent w -> coherent (dispatch e w).
Proof.
  intros I. destruct e.
  - apply coherent_select, I.
  - apply coherent_capture, I.
  - apply coherent_retake_context, I.
  - unfold dispatch. steady_event I. apply Steady_retakeDetail.
  - apply coherent_analyze, I.
  - apply coherent_analysis_settled, I.
  - apply coherent_deploy, I.
  - apply coherent_timeout, I.
  - apply coherent_pointer_down, I.
  - unfold dispatch. steady_event I. apply Steady_handleOverrideEnd.
  - apply coherent_tick, I.
  - unfold dispatch. steady_event I. steady_tac.
  - unfold dispatch. destruct (existsb _ _); [|exact I].
    apply (coherent_exec (hooks w)); [auto | apply Steady_handleCapture_resume |].
    apply settle_verify_coherent, I.
  - unfold dispatch. destruct (verificationFeedback _); [|exact I].
    steady_event I. steady_tac.
  - unfold dispatch. steady_event I. apply Steady_proceedNext.
  - unfold dispatch. steady_event I. steady_tac.
Qed.

Lemma coherent_reachable (w : World) : reachable w -> coherent w.
Proof.
  intros [es <-]. induction es as [|e es IH] using rev_ind.
  - unfold coherent. simpl. repeat split; try discriminate; auto.
    intros [X|[X|[X|X]]]; try discriminate; congruence.
  - rewrite run_snoc. apply coherent_step. exact IH.
Qed.

(** X1.  The screens [ESCALATION] and [VOICE_DESCRIPTION] of [types.ts] are
    never entered: no handler sets either state, so in every state the
    component can be in the state cell holds neither (the escalation block
    of the JSX is never on the page). *)
Theorem dead_states_unreachable (es : list Event) :
  state (hooks (run es initial)) <> ESCALATION /\
  state (hooks (run es initial)) <> VOICE_DESCRIPTION.
Proof.
  assert (R : reachable (run es initial)) by (exists es; reflexivity).
  destruct (coherent_reachable _ R) as (I & _). exact I.
Qed.



(** Without the first condition the page can go blank: the time-out of
    [startGuidance] enters the guidance screen of a plan without steps, and
    the render of that screen throws. *)
Example empty_plan_blanks_the_page :
  let h := hooks (run (Sample.toGuidance Sample.plan0) initial) in
  state h = GUIDANCE /\ rendering h = Rejected TypeError /\ page h = [].
Proof. vm_compute. repeat split. Qed.

(** X3.  Every analysis request that is in flight carries a context image
    that is not empty, and no voice note: [Analyze Situation] is only on
    the capture-ready screen, which [handleCapture] enters only with a
    truthy [wideImage], and [setVoiceDescription] is only ever called with
    [null]. *)
Theorem analysis_request_content (es : list Event) (m : AppMode)
  (wide macro voice : option string) :
  In (AnalysisRequest m wide macro voice) (inflight (run es initial)) ->
  truthy wide = true /\ voice = None.
Proof.
  intros H.
  assert (R : reachable (run es initial)) by (exists es; reflexivity).
  destruct (coherent_reachable _ R) as (_ & _ & _ & _ & _ & _ & I).
  rewrite Forall_forall in I. exact (I _ H).
Qed.

Lemma analysis_request_content_witness :
  let es := (Sample.toCaptureReady ++ [Analyze])%list in
  let q := AnalysisRequest ROBOTICS (Some "wide.jpg") (Some "macro.jpg") None in
  In q (inflight (run es initial)) /\
  truthy (Some "wide.jpg") = true /\ @None string = None.
Proof.
  intros es q.
  assert (H : In q (inflight (run es initial))) by (vm_compute; left; reflexivity).
  split; [exact H|].
  exact (analysis_request_content es ROBOTICS _ _ _ H).
Defined.

(** The detail image of the request has no such guarantee: the second
    capture is stored whatever it is. *)
Example detail_image_may_be_empty :
  inflight (run [SelectMode CODING; Capture "wide.jpg"; Capture EmptyString;
                 Analyze] initial)
  = [AnalysisRequest CODING (Some "wide.jpg") (Some EmptyString) None].
Proof. vm_compute. reflexivity. Qed.

(** X4.  The two waiting screens wait for something.  Whenever the state is
    [ANALYZING], exactly one request is in flight, it is an analysis request
    without a voice note, and [isBusy] is true; whenever the state is
    [PREPARING_INSTRUCTIONS], the time-out of [startGuidance] is pending. *)
Theorem spinner_has_a_cause (es : list Event) :
  let w := run es initial in
  (state (hooks w) = ANALYZING ->
   exists m wide macro, inflight w = [AnalysisRequest m wide macro None] /\
                        isBusy (hooks w) = true) /\
  (state (hooks w) = PREPARING_INSTRUCTIONS -> timeouts w <> []).
Proof.
  intros w.
  assert (R : reachable w) by (exists es; reflexivity).
  destruct (coherent_reachable _ R) as (_ & _ & _ & _ & I6 & I7 & I8).
  destruct (one_request_reachable _ R) as (O1 & O2 & _).
  split; [|exact I7].
  intros S. specialize (I6 S).
  destruct (inflight w) as [|q [|q' l]]; simpl in *; try discriminate; try lia.
  rewrite orb_false_r in I6. destruct q as [m wi ma v|]; [|discriminate].
  apply Forall_inv in I8. simpl in I8. destruct I8 as [_ ->]. exists m, wi, ma.
  split; [reflexivity | apply O2; discriminate].
Qed.

Lemma spinner_has_a_cause_witness :
  let w1 := run (Sample.toCaptureReady ++ [Analyze])%list initial in
  let w2 := run [SelectMode ROBOTICS; Capture "wide.jpg"; Capture "macro.jpg";
                 Analyze; AnalysisSettled (Fulfilled Sample.plan3);
                 DeployInstructions] initial in
  (state (hooks w1) = ANALYZING /\
   exists m wide macro, inflight w1 = [AnalysisRequest m wide macro None] /\
                        isBusy (hooks w1) = true) /\
  (state (hooks w2) = PREPARING_INSTRUCTIONS /\ timeouts w2 <> []).
Proof.
  intros w1 w2.
  assert (S1 : state (hooks w1) = ANALYZING) by (vm_compute; reflexivity).
  assert (S2 : state (hooks w2) = PREPARING_INSTRUCTIONS) by (vm_compute; reflexivity).
  split.
  - split; [exact S1|].
    exact (proj1 (spinner_has_a_cause (Sample.toCaptureReady ++ [Analyze])%list) S1).
  - split; [exact S2|].
    exact (proj2 (spinner_has_a_cause
                    [SelectMode ROBOTICS; Capture "wide.jpg"; Capture "macro.jpg";
                     Analyze; AnalysisSettled (Fulfilled Sample.plan3);
                     DeployInstructions]) S2).
Defined.

(** ** The two captures *)

Lemma run_cons (e : Event) (es : list Event) (w : World) :
  run (e :: es) w = run es (dispatch e w).
Proof. reflexivity. Qed.

Lemma run_app (es1 es2 : list Event) (w : World) :
  run (es1 ++ es2) w = run es2 (run es1 w).
Proof. unfold run. apply fold_left_app. Qed.

(** The shutter on the scan screen: the frame goes to the context cell when
    that cell is falsy, and otherwise to the detail cell, with the
    capture-ready screen next. *)
Lemma capture_initial (w : World) (d : string) :
  state (hooks w) = INITIAL_CAPTURE -> isBusy (hooks w) = false ->
  let h := hooks w in
  dispatch (Capture d) w
  = if truthy (wideImage h) then
      exec (setIsCapturing false ;; setMacroImage (Some d) ;; setState CAPTURE_COMPLETE) w
    else
      exec (setIsCapturing false ;; setWideImage (Some d)) w.
Proof.
  intros S B h. unfold dispatch, captureScreen. rewrite S, B. simpl.
  unfold exec, handleCapture, bind. simpl. rewrite S. simpl.
  subst h. destruct (truthy (wideImage (hooks w))); simpl; reflexivity.
Qed.

(** X5.  The heading over the shutter names the cell that the next frame
    goes to.  On the scan screen, not busy: under [Capture Scene Context]
    the frame is stored as the context image and the screen stays; under
    [Capture Technical Detail] it is stored as the detail image and the
    capture-ready screen follows.  The other image is untouched. *)
Theorem heading_names_the_slot (w : World) (d : string) :
  state (hooks w) = INITIAL_CAPTURE -> isBusy (hooks w) = false ->
  let h := hooks w in
  let h' := hooks (dispatch (Capture d) w) in
  (captureHeading h = "Capture Scene Context" /\
   wideImage h' = Some d /\ macroImage h' = macroImage h /\
   state h' = INITIAL_CAPTURE) \/
  (captureHeading h = "Capture Technical Detail" /\
   macroImage h' = Some d /\ wideImage h' = wideImage h /\
   state h' = CAPTURE_COMPLETE).
Proof.
  intros S B h h'. subst h' h. rewrite (capture_initial w d S B).
  unfold captureHeading. rewrite S. cbv zeta. simpl.
  destruct (truthy (wideImage (hooks w))); simpl; [right | left]; repeat split; auto.
Qed.

Lemma heading_names_the_slot_witness :
  let w := run [SelectMode TRADES] initial in
  let h := hooks w in
  let h' := hooks (dispatch (Capture "wide.jpg") w) in
  (state h = INITIAL_CAPTURE /\ isBusy h = false) /\
  ((captureHeading h = "Capture Scene Context" /\
    wideImage h' = Some "wide.jpg" /\ macroImage h' = macroImage h /\
    state h' = INITIAL_CAPTURE) \/
   (captureHeading h = "Capture Technical Detail" /\
    macroImage h' = Some "wide.jpg" /\ wideImage h' = wideImage h /\
    state h' = CAPTURE_COMPLETE)).
Proof.
  intros w h h'.
  assert (S : state (hooks w) = INITIAL_CAPTURE) by (vm_compute; reflexivity).
  assert (B : isBusy (hooks w) = false) by (vm_compute; reflexivity).
  split; [split; [exact S | exact B]|].
  exact (heading_names_the_slot w "wide.jpg" S B).
Defined.

(** X6.  Two frames complete the capture.  On the scan screen with no
    context image and not busy, a first frame that is not empty and then
    any second frame end on the capture-ready screen with the first frame
    as context and the second as detail; no request is sent. *)
Theorem two_captures_complete (w : World) (d1 d2 : string) :
  state (hooks w) = INITIAL_CAPTURE -> isBusy (hooks w) = false ->
  truthy (wideImage (hooks w)) = false -> d1 <> EmptyString ->
  let w' := run [Capture d1; Capture d2] w in
  state (hooks w') = CAPTURE_COMPLETE /\
  wideImage (hooks w') = Some d1 /\ macroImage (hooks w') = Some d2 /\
  isBusy (hooks w') = false /\ inflight w' = inflight w.
Proof.
  intros S B T D w'. subst w'. unfold run. cbn [fold_left].
  rewrite (capture_initial w d1 S B). cbv zeta. rewrite T.
  rewrite capture_initial; [|exact S|exact B]. cbv zeta.
  unfold exec. simpl.
  destruct d1 as [|c d1]; [congruence|]. simpl. repeat split; auto.
Qed.

Lemma two_captures_complete_witness :
  let w := run [SelectMode MECHANICAL] initial in
  let w' := run [Capture "wide.jpg"; Capture "macro.jpg"] w in
  state (hooks w') = CAPTURE_COMPLETE /\
  wideImage (hooks w') = Some "wide.jpg" /\ macroImage (hooks w') = Some "macro.jpg" /\
  isBusy (hooks w') = false /\ inflight w' = inflight w.
Proof.
  intros w.
  apply (two_captures_complete w "wide.jpg" "macro.jpg");
    [reflexivity | reflexivity | reflexivity | discriminate].
Defined.

(** What [CameraView] hands over for a canvas without pixels, whose data
    URL is [data:,]: the empty string. *)
Example blank_canvas_gives_empty_frame :
  CameraView.captured "data:," = Some EmptyString.
Proof. reflexivity. Qed.

(** X7.  Empty frames never complete the capture.  [handleCapture] tests
    the context image for truthiness, and the empty string is falsy: on the
    scan screen with no context image, however many empty frames are
    captured, each one is stored as the context image again, the heading
    still asks for the scene context, the detail image is untouched and the
    capture-ready screen is not reached. *)
Theorem empty_frames_never_complete (w : World) (n : nat) :
  state (hooks w) = INITIAL_CAPTURE -> isBusy (hooks w) = false ->
  truthy (wideImage (hooks w)) = false ->
  let w' := run (repeat (Capture EmptyString) n) w in
  state (hooks w') = INITIAL_CAPTURE /\
  truthy (wideImage (hooks w')) = false /\
  macroImage (hooks w') = macroImage (hooks w) /\
  captureHeading (hooks w') = "Capture Scene Context".
Proof.
  revert w. induction n as [|n IH]; intros w S B T; unfold run; cbn [repeat fold_left].
  - unfold captureHeading. rewrite S, T. auto.
  - rewrite (capture_initial w EmptyString S B). cbv zeta. rewrite T.
    destruct (IH (exec (setIsCapturing false;; setWideImage (Some EmptyString)) w)
                S B eq_refl)
      as (A1 & A2 & A3 & A4).
    auto.
Qed.

Lemma empty_frames_never_complete_witness :
  let w := run [SelectMode GENERAL] initial in
  let w' := run (repeat (Capture EmptyString) 5) w in
  state (hooks w') = INITIAL_CAPTURE /\
  truthy (wideImage (hooks w')) = false /\
  macroImage (hooks w') = macroImage (hooks w) /\
  captureHeading (hooks w') = "Capture Scene Context".
Proof.
  intros w.
  apply (empty_frames_never_complete w 5); reflexivity.
Defined.

(** After [Retake] under the detail image, one frame brings the
    capture-ready screen back, with the context image kept. *)
Lemma retake_detail_keeps_context (w : World) (d : string) :
  state (hooks w) = CAPTURE_COMPLETE -> isBusy (hooks w) = false ->
  truthy (wideImage (hooks w)) = true ->
  let w1 := run [RetakeDetail; Capture d] w in
  state (hooks w1) = CAPTURE_COMPLETE /\
  wideImage (hooks w1) = wideImage (hooks w) /\ macroImage (hooks w1) = Some d.
Proof.
  intros S B T w1.
  assert (E1 : w1 = exec (setIsCapturing false ;; setMacroImage (Some d) ;;
                          setState CAPTURE_COMPLETE) (exec retakeDetail w)).
  { subst w1. unfold run. cbn [fold_left].
    assert (E0 : dispatch RetakeDetail w = exec retakeDetail w).
    { unfold dispatch, captureReadyScreen. rewrite S. reflexivity. }
    rewrite E0. rewrite capture_initial; [|reflexivity|exact B]. cbv zeta.
    assert (T' : truthy (wideImage (hooks (exec retakeDetail w))) = true) by exact T.
    rewrite T'. reflexivity. }
  rewrite E1. unfold exec. simpl. auto.
Qed.

(** X8.  After [Retake] under the context image, the detail image that was
    kept is not used.  The new context frame leaves the session on the scan
    screen, now asking for the technical detail although the detail cell
    still holds the old picture; the capture-ready screen comes back only
    with one more frame, which overwrites that picture. *)
Theorem retake_context_loses_detail (w : World) (c d : string) :
  state (hooks w) = CAPTURE_COMPLETE -> isBusy (hooks w) = false ->
  c <> EmptyString ->
  let w1 := run [RetakeContext; Capture c] w in
  let w2 := dispatch (Capture d) w1 in
  (state (hooks w1) = INITIAL_CAPTURE /\
   wideImage (hooks w1) = Some c /\ macroImage (hooks w1) = macroImage (hooks w) /\
   captureHeading (hooks w1) = "Capture Technical Detail") /\
  (state (hooks w2) = CAPTURE_COMPLETE /\
   wideImage (hooks w2) = Some c /\ macroImage (hooks w2) = Some d).
Proof.
  intros S B C w1 w2.
  assert (E1 : w1 = exec (setIsCapturing false ;; setWideImage (Some c))
                      (exec retakeContext w)).
  { subst w1. unfold run. cbn [fold_left].
    assert (E0 : dispatch RetakeContext w = exec retakeContext w).
    { unfold dispatch, captureReadyScreen. rewrite S. reflexivity. }
    rewrite E0. rewrite capture_initial; [|reflexivity|exact B]. reflexivity. }
  assert (T : truthy (Some c) = true) by (destruct c; [congruence | reflexivity]).
  assert (H1 : state (hooks w1) = INITIAL_CAPTURE /\
               wideImage (hooks w1) = Some c /\
               macroImage (hooks w1) = macroImage (hooks w) /\
               isBusy (hooks w1) = false).
  { rewrite E1. unfold exec. simpl. auto. }
  destruct H1 as (A1 & A2 & A3 & A4).
  split.
  - unfold captureHeading. rewrite A1, A2, T. auto.
  - subst w2. rewrite (capture_initial w1 d A1 A4). cbv zeta. rewrite A2, T.
    unfold exec. simpl. auto.
Qed.

Lemma retake_context_loses_detail_witness :
  let w := run Sample.toCaptureReady initial in
  let w1 := run [RetakeContext; Capture "wide2.jpg"] w in
  let w2 := dispatch (Capture "macro2.jpg") w1 in
  macroImage (hooks w) = Some "macro.jpg" /\
  (state (hooks w1) = INITIAL_CAPTURE /\
   wideImage (hooks w1) = Some "wide2.jpg" /\ macroImage (hooks w1) = macroImage (hooks w) /\
   captureHeading (hooks w1) = "Capture Technical Detail") /\
  (state (hooks w2) = CAPTURE_COMPLETE /\
   wideImage (hooks w2) = Some "wide2.jpg" /\ macroImage (hooks w2) = Some "macro2.jpg").
Proof.
  intros w.
  split; [reflexivity|].
  apply (retake_context_loses_detail w "wide2.jpg" "macro2.jpg");
    [reflexivity | reflexivity | discriminate].
Defined.

(** *** The frame and the image shown *)

Lemma split_without (sep : ascii) (s : string) :
  has_char sep s = false -> CameraView.split sep s = [s].
Proof.
  induction s as [|c s IH]; simpl; [reflexivity|].
  intros H. apply orb_false_iff in H as [H1 H2].
  rewrite H1, (IH H2). reflexivity.
Qed.

Lemma split_at (sep : ascii) (h p : string) :
  has_char sep h = false ->
  CameraView.split sep (h ++ String sep p) = h :: CameraView.split sep p.
Proof.
  induction h as [|c h IH]; simpl.
  - intros _. rewrite Ascii.eqb_refl. reflexivity.
  - intros H. apply orb_false_iff in H as [H1 H2].
    rewrite H1, (IH H2). reflexivity.
Qed.

(** X9.  The picture shown is the picture taken.  [CameraView] keeps of the
    data URL of the canvas what follows its comma, and the capture-ready
    screen puts [data:image/jpeg;base64,] before what was kept: for a JPEG
    data URL whose payload has no comma (base64 has none), what
    [CameraView] hands over is the payload, and the [src] built from it is
    the data URL again. *)
Theorem shown_image_is_the_captured_frame (p : string) :
  has_char "," p = false ->
  let url := "data:image/jpeg;base64," ++ p in
  CameraView.captured url = Some p /\ imgSrc (CameraView.captured url) = url.
Proof.
  intros H url.
  assert (E : CameraView.captured url = Some p).
  { unfold CameraView.captured, url.
    change ("data:image/jpeg;base64," ++ p)
      with ("data:image/jpeg;base64" ++ String "," p).
    rewrite split_at by reflexivity. rewrite (split_without _ _ H). reflexivity. }
  rewrite E. split; reflexivity.
Qed.

Lemma shown_image_is_the_captured_frame_witness :
  let url := "data:image/jpeg;base64,/9j/4AAQSkZJRg==" in
  CameraView.captured url = Some "/9j/4AAQSkZJRg==" /\
  imgSrc (CameraView.captured url) = url.
Proof.
  apply (shown_image_is_the_captured_frame "/9j/4AAQSkZJRg=="). reflexivity.
Defined.

(** ** A busy flag that stays *)

Lemma quiet_stuck w w' : quiet w w' -> stuck w -> stuck w'.
Proof.
  intros (A & B & C) (H1 & H2 & H3). unfold stuck. rewrite A, B.
  split; [exact H1 | split; [exact H2 | intros X; apply H3, C, X]].
Qed.

Lemma stuck_exec {A} (m : Handler A) w : Quiet m -> stuck w -> stuck (exec m w).
Proof. intros Hm. apply quiet_stuck. apply Hm. Qed.

Ltac stuck_event I :=
  match goal with
  | |- stuck (if ?g then _ else _) =>
      destruct g; [apply stuck_exec; [|exact I] | exact I]
  end.

Lemma stuck_step (e : Event) (w : World) : stuck w -> stuck (dispatch e w).
Proof.
  intros I. pose proof I as (B & F & S). destruct e.
  - unfold dispatch. stuck_event I. apply Quiet_startAssessment.
  - unfold dispatch. rewrite B, andb_false_r. exact I.
  - unfold dispatch. stuck_event I. apply Quiet_retakeContext.
  - unfold dispatch. stuck_event I. apply Quiet_retakeDetail.
  - unfold dispatch, captureReadyScreen.
    destruct (AppState_beq _ _) eqn:E; [|exact I].
    apply AppState_beq_true in E. contradiction.
  - unfold dispatch. rewrite F. exact I.
  - unfold dispatch. stuck_event I. apply Quiet_startGuidance.
  - unfold dispatch. destruct (timeouts w); [exact I|].
    apply stuck_exec; [apply Quiet_startGuidance_timeout|].
    apply (quiet_stuck w); [repeat split; auto | exact I].
  - unfold dispatch. stuck_event I. apply Quiet_handleOverrideStart.
  - unfold dispatch. stuck_event I. apply Quiet_handleOverrideEnd.
  - unfold dispatch. destruct (find _ _); [|exact I].
    apply stuck_exec; [apply Quiet_intervalCallback | exact I].
  - unfold dispatch. stuck_event I. quiet_tac.
  - unfold dispatch. rewrite F. exact I.
  - unfold dispatch. destruct (verificationFeedback _); [|exact I].
    stuck_event I. quiet_tac.
  - unfold dispatch. stuck_event I. apply Quiet_proceedNext.
  - unfold dispatch. stuck_event I. quiet_tac.
Qed.

Lemma stuck_run (es : list Event) (w : World) : stuck w -> stuck (run es w).
Proof.
  revert w. induction es as [|e es IH]; intros w I; [exact I|].
  rewrite run_cons. apply IH, stuck_step, I.
Qed.

(** X10.  A busy flag with nothing in flight never clears.  [setIsBusy(false)]
    is only called when a request settles, and a request is only sent by the
    shutter, which [isBusy] disables, or from the capture-ready screen,
    which needs two captures.  So from a state with [isBusy] true, no
    request in flight and a screen other than capture-ready, whatever
    happens next, [isBusy] stays true, nothing is sent, and the shutter does
    nothing. *)
Theorem stuck_busy_is_permanent (w : World) (es : list Event) :
  isBusy (hooks w) = true -> inflight w = [] ->
  state (hooks w) <> CAPTURE_COMPLETE ->
  let w' := run es w in
  isBusy (hooks w') = true /\ inflight w' = [] /\
  (forall d, dispatch (Capture d) w' = w').
Proof.
  intros B F S w'.
  destruct (stuck_run es w (conj B (conj F S))) as (B' & F' & S').
  fold w' in B', F', S'.
  split; [exact B' | split; [exact F'|]].
  intros d. unfold dispatch. rewrite B', andb_false_r. reflexivity.
Qed.

Lemma stuck_busy_is_permanent_witness :
  let w := run (Sample.toGuidance Sample.plan3 ++
                [SnapToVerify; Capture "work.jpg";
                 VerifySettled (Rejected (Error "503"))])%list initial in
  let w' := run [Close; SelectMode CODING] w in
  state (hooks w') = INITIAL_CAPTURE /\
  isBusy (hooks w') = true /\ inflight w' = [] /\
  (forall d, dispatch (Capture d) w' = w').
Proof.
  intros w w'.
  assert (B : isBusy (hooks w) = true) by (vm_compute; reflexivity).
  assert (F : inflight w = []) by (vm_compute; reflexivity).
  assert (S : state (hooks w) <> CAPTURE_COMPLETE) by (vm_compute; discriminate).
  split; [vm_compute; reflexivity|].
  exact (stuck_busy_is_permanent w [Close; SelectMode CODING] B F S).
Defined.

(** The shutter on the validation screen. *)
Lemma capture_validation (w : World) (d : string) :
  state (hooks w) = STEP_VALIDATION -> isBusy (hooks w) = false ->
  dispatch (Capture d) w
  = exec (setIsCapturing false ;; setIsBusy true ;;
          l <- stepsOf (analysis (hooks w)) ;;
          s <- at_index l (currentStepIdx (hooks w)) ;;
          await (VerifyRequest (instruction s) d)) w.
Proof.
  intros S B. unfold dispatch, captureScreen. rewrite S, B. simpl.
  unfold exec, handleCapture, bind. simpl. rewrite S. simpl. reflexivity.
Qed.

(** The request of a verification names the instruction of the active
    step. *)
Lemma capture_sends_active_instruction (w : World) (d : string)
  (a : AnalysisResult) (s : GuidanceStep) :
  state (hooks w) = STEP_VALIDATION -> isBusy (hooks w) = false ->
  analysis (hooks w) = Some a ->
  nth_error (steps a) (currentStepIdx (hooks w)) = Some s ->
  dispatch (Capture d) w
  = exec (setIsCapturing false ;; setIsBusy true ;;
          await (VerifyRequest (instruction s) d)) w.
Proof.
  intros S B A N. rewrite (capture_validation w d S B).
  unfold exec, bind, stepsOf, at_index. rewrite A. simpl. rewrite N. reflexivity.
Qed.

(** X11.  The photo of the validation screen goes out with the
    instruction of the active step.  Along every run in which each
    delivered plan has a step and none is delivered while a timer of a hold
    is live: on the validation screen, not busy, the read
    [analysis!.steps[currentStepIdx].instruction] of [handleCapture] finds
    a plan and a step, so it does not throw; after the shutter exactly one
    request is in flight, the verification of the photo against the
    instruction of the step at the index, [isBusy] is true, and the screen,
    the index and the feedback are what they were. *)
Theorem validation_capture_names_the_active_step (es : list Event) (d : string) :
  run_ok es initial ->
  let w := run es initial in
  state (hooks w) = STEP_VALIDATION -> isBusy (hooks w) = false ->
  exists a s,
    analysis (hooks w) = Some a /\
    nth_error (steps a) (currentStepIdx (hooks w)) = Some s /\
    let w' := dispatch (Capture d) w in
    inflight w' = [VerifyRequest (instruction s) d] /\
    isBusy (hooks w') = true /\ state (hooks w') = STEP_VALIDATION /\
    currentStepIdx (hooks w') = currentStepIdx (hooks w) /\
    verificationFeedback (hooks w') = verificationFeedback (hooks w).
Proof.
  intros Hok w S B.
  destruct (bounded_run es initial bounded_initial Hok) as (_ & _ & H3 & _).
  fold w in H3. destruct H3 as (a & Ha & Hi); [right; exact S|].
  destruct (nth_error_in_range (steps a) _ Hi) as [s Hs].
  assert (R : reachable w) by (exists es; reflexivity).
  pose proof (not_busy_no_request w (one_request_reachable w R) B) as F.
  exists a, s. split; [exact Ha | split; [exact Hs|]].
  cbv zeta. rewrite (capture_sends_active_instruction w d a s S B Ha Hs).
  unfold exec. simpl. rewrite F, S. repeat split.
Qed.

Lemma validation_capture_names_the_active_step_witness :
  let es := (Sample.toGuidance Sample.plan3 ++ round "a.jpg" Sample.looseWire
             ++ [SnapToVerify])%list in
  let w := run es initial in
  run_ok es initial /\ currentStepIdx (hooks w) = 1%nat /\
  exists a s,
    analysis (hooks w) = Some a /\
    nth_error (steps a) (currentStepIdx (hooks w)) = Some s /\
    let w' := dispatch (Capture "b.jpg") w in
    inflight w' = [VerifyRequest (instruction s) "b.jpg"] /\
    isBusy (hooks w') = true /\ state (hooks w') = STEP_VALIDATION /\
    currentStepIdx (hooks w') = currentStepIdx (hooks w) /\
    verificationFeedback (hooks w') = verificationFeedback (hooks w).
Proof.
  intros es w.
  assert (Hok : run_ok es initial).
  { vm_compute. repeat split; try discriminate. }
  assert (S : state (hooks (run es initial)) = STEP_VALIDATION)
    by (vm_compute; reflexivity).
  assert (B : isBusy (hooks (run es initial)) = false)
    by (vm_compute; reflexivity).
  split; [exact Hok | split; [vm_compute; reflexivity|]].
  exact (validation_capture_names_the_active_step es "b.jpg" Hok S B).
Defined.

(** ** From the result screen through the plan *)

(** X12.  [Deploy Instructions] and its time-out.  From the result screen
    with no time-out pending, the button leads to the preparing screen,
    which has no button that leaves it, and the time-out then puts the
    session on the guidance screen at index 0 of the same plan and speaks
    the prompt of the first step once; for a plan without steps the
    guidance screen is entered all the same and nothing is spoken. *)
Theorem deploy_starts_at_first_step (w : World) (a : AnalysisResult) :
  state (hooks w) = ANALYSIS_COMPLETE -> analysis (hooks w) = Some a ->
  timeouts w = [] ->
  let w1 := dispatch DeployInstructions w in
  let w' := dispatch TimeoutElapsed w1 in
  (state (hooks w1) = PREPARING_INSTRUCTIONS /\ closeButton (hooks w1) = false) /\
  state (hooks w') = GUIDANCE /\ currentStepIdx (hooks w') = 0%nat /\
  analysis (hooks w') = Some a /\ timeouts w' = [] /\
  spoken w' = (spoken w ++ match steps a with
                           | s :: _ => [audioPrompt s]
                           | [] => []
                           end)%list.
Proof.
  intros S A T w1 w'.
  assert (E1 : w1 = exec (startGuidance (hooks w)) w).
  { subst w1. unfold dispatch, resultScreen. rewrite S, A. reflexivity. }
  assert (E2 : w' = exec (startGuidance_timeout (hooks w)) (dropTimeout w1)).
  { subst w'. rewrite E1. unfold dispatch, exec. simpl. rewrite T. reflexivity. }
  split.
  - rewrite E1. unfold exec. simpl. split; reflexivity.
  - rewrite E2, E1. unfold exec, startGuidance_timeout, bind. simpl.
    rewrite A, T. destruct (steps a) as [|s l]; simpl;
      rewrite ?app_nil_r; repeat split; assumption.
Qed.

Lemma deploy_starts_at_first_step_witness :
  let w := run [SelectMode ROBOTICS; Capture "wide.jpg"; Capture "macro.jpg";
                Analyze; AnalysisSettled (Fulfilled Sample.plan3)] initial in
  let w1 := dispatch DeployInstructions w in
  let w' := dispatch TimeoutElapsed w1 in
  (state (hooks w1) = PREPARING_INSTRUCTIONS /\ closeButton (hooks w1) = false) /\
  state (hooks w') = GUIDANCE /\ currentStepIdx (hooks w') = 0%nat /\
  analysis (hooks w') = Some Sample.plan3 /\ timeouts w' = [] /\
  spoken w' = (spoken w ++ ["Now unplug"])%list.
Proof.
  intros w.
  apply (deploy_starts_at_first_step w Sample.plan3); reflexivity.
Defined.

Lemma skipn_nth {A} (l : list A) (i : nat) (x : A) :
  nth_error l i = Some x -> skipn i l = x :: skipn (S i) l.
Proof.
  revert l. induction i as [|i IH]; intros [|y l] H; simpl in *; try discriminate.
  - congruence.
  - apply IH, H.
Qed.

(** One round at a step of the plan, whatever the photo and the verdict. *)
Lemma one_round (w : World) (a : AnalysisResult) (photo : string) (fb : Feedback) :
  atStep a (currentStepIdx (hooks w)) w ->
  (currentStepIdx (hooks w) < List.length (steps a))%nat ->
  let k := currentStepIdx (hooks w) in
  let w' := run (round photo fb) w in
  ((k + 1 < List.length (steps a))%nat ->
   atStep a (k + 1) w' /\
   exists s, nth_error (steps a) (k + 1) = Some s /\
             spoken w' = (spoken w ++ [audioPrompt s])%list) /\
  ((k + 1 = List.length (steps a))%nat ->
   state (hooks w') = COMPLETED /\ currentStepIdx (hooks w') = k /\
   spoken w' = spoken w /\ inflight w' = [] /\ isBusy (hooks w') = false).
Proof.
  intros (S & A & _ & B & F & _) L k w'.
  destruct (nth_error_in_range (steps a) _ L) as [s0 N0].
  assert (E1 : dispatch SnapToVerify w = exec (setState STEP_VALIDATION) w).
  { unfold dispatch, guidanceScreen. rewrite S, A. reflexivity. }
  set (w3 := exec (setState STEP_VALIDATION ;; setIsCapturing false ;;
                   setVerificationFeedback (Some fb)) w).
  assert (E3 : run [SnapToVerify; Capture photo; VerifySettled (Fulfilled fb)] w = w3).
  { unfold run. cbn [fold_left]. rewrite E1.
    rewrite (capture_sends_active_instruction _ photo a s0);
      [|reflexivity|exact B|exact A|exact N0].
    unfold dispatch, exec. simpl. rewrite F. simpl.
    unfold w3, exec. simpl. rewrite F, B. reflexivity. }
  assert (E : w' = exec (proceedNext (hooks w3)) w3).
  { subst w'. change (round photo fb)
      with ([SnapToVerify; Capture photo; VerifySettled (Fulfilled fb)]
            ++ [ConfirmProceed])%list.
    rewrite run_app, E3. unfold run. cbn [fold_left].
    apply dispatch_confirm. reflexivity. }
  assert (A3 : analysis (hooks w3) = Some a) by exact A.
  split; intros H.
  - destruct (proceedNext_inner (hooks w3) a A3 w3 H) as (s & Ns & P).
    rewrite E. unfold exec. rewrite P. unfold atStep. simpl.
    rewrite A, B, F. repeat split; auto.
    exists s. split; [exact Ns | reflexivity].
  - rewrite E. unfold exec. rewrite (proceedNext_last (hooks w3) a A3 w3).
    + simpl. rewrite F, B. auto.
    + change (currentStepIdx (hooks w3)) with k. lia.
Qed.

(** X13.  Walking the plan.  From the guidance screen at step [k] of a
    plan, idle, any number of rounds (snap, photo, verdict, confirm) that
    does not go past the end of the plan: the prompts of the steps after
    [k] are spoken once each, in the order of the plan; short of the end the
    session is on the guidance screen of step [k] plus the number of rounds,
    idle again; and the round on the last step ends on the completion
    screen.  Neither the photos nor the verdicts make a difference. *)
Theorem plan_walk (l : list (string * Feedback)) (w : World) (a : AnalysisResult) :
  atStep a (currentStepIdx (hooks w)) w ->
  (currentStepIdx (hooks w) + List.length l <= List.length (steps a))%nat ->
  let k := currentStepIdx (hooks w) in
  let n := List.length (steps a) in
  let w' := run (rounds l) w in
  spoken w' = (spoken w ++
               map audioPrompt (firstn (List.length l) (skipn (k + 1) (steps a))))%list /\
  ((k + List.length l < n)%nat -> atStep a (k + List.length l) w') /\
  ((k + List.length l = n)%nat -> l <> [] ->
   state (hooks w') = COMPLETED /\ currentStepIdx (hooks w') = (n - 1)%nat).
Proof.
  revert w. induction l as [|[photo fb] l IH]; intros w I Hl k n w'.
  - subst w'. simpl. rewrite app_nil_r, Nat.add_0_r.
    split; [reflexivity | split; [intros _; exact I | congruence]].
  - simpl in Hl.
    assert (L : (k < n)%nat) by (subst k n; lia).
    pose proof (one_round w a photo fb I L) as R. cbv zeta in R.
    destruct R as (R1 & R2).
    subst w'. change (rounds ((photo, fb) :: l)) with (round photo fb ++ rounds l)%list.
    rewrite run_app. remember (run (round photo fb) w) as w1 eqn:Ew1. clear Ew1.
    fold k in R1, R2. fold n in R1, R2.
    destruct (Nat.eq_dec (k + 1) n) as [Hn|Hn].
    + destruct (R2 Hn) as (C1 & C2 & C3 & C4 & C5).
      assert (l = []) by (destruct l; [reflexivity | simpl in Hl; subst k n; lia]).
      subst l. simpl.
      split; [|split].
      * rewrite C3. rewrite skipn_all2 by (apply Nat.eq_le_incl; symmetry; exact Hn).
        simpl. rewrite app_nil_r. reflexivity.
      * intros X. subst k n. lia.
      * intros _ _. split; [exact C1 | subst k n; lia].
    + destruct R1 as (I1 & s & Ns & Sp); [subst k n; lia|].
      pose proof I1 as (_ & _ & K1 & _).
      specialize (IH w1). rewrite K1 in IH.
      destruct (IH I1) as (T1 & T2 & T3); [subst k n; simpl; lia|].
      fold n in T2, T3.
      simpl List.length.
      split; [|split].
      * rewrite T1, Sp, <- app_assoc. f_equal.
        rewrite (skipn_nth _ _ _ Ns). cbn [firstn map app].
        replace (k + 1 + 1)%nat with (S (k + 1)) by lia. reflexivity.
      * intros X. replace (k + S (List.length l))%nat with (k + 1 + List.length l)%nat by lia.
        apply T2. lia.
      * intros X _.
        destruct l as [|p l].
        { simpl in X. lia. }
        apply T3; [lia | discriminate].
Qed.

Lemma plan_walk_witness :
  let w := run (Sample.toGuidance Sample.plan3) initial in
  let l := [("a.jpg", Sample.ok); ("b.jpg", Sample.looseWire); ("c.jpg", Sample.ok)] in
  let w' := run (rounds l) w in
  spoken w = ["Now unplug"] /\
  spoken w' = ["Now unplug"; "Now reseat"; "Now test"] /\
  state (hooks w') = COMPLETED /\ currentStepIdx (hooks w') = 2%nat.
Proof.
  intros w l w'.
  assert (I : atStep Sample.plan3 (currentStepIdx (hooks w)) w).
  { vm_compute. repeat split. }
  assert (Hl : (currentStepIdx (hooks w) + List.length l
                <= List.length (steps Sample.plan3))%nat).
  { vm_compute. apply le_n. }
  destruct (plan_walk l w Sample.plan3 I Hl) as (A & _ & C).
  destruct C as (C1 & C2); [reflexivity | discriminate |].
  split; [reflexivity | split; [exact A | split; [exact C1 | exact C2]]].
Defined.

(** X14.  The step label and the bar of the guidance screen.  Along every
    run in which each delivered plan has a step and none is delivered while
    a timer of a hold is live, on the guidance screen the header reads
    [Step i of n] with [1 <= i <= n], and the width of the bar is above 0
    and at most 100 percent, 100 exactly on the last step. *)
Theorem progress_bar_in_range (es : list Event) :
  run_ok es initial ->
  let h := hooks (run es initial) in
  guidanceScreen h = true ->
  exists a, analysis h = Some a /\
    stepLabel h = Some ((currentStepIdx h + 1)%nat, List.length (steps a)) /\
    (1 <= currentStepIdx h + 1 <= List.length (steps a))%nat /\
    (0 < barWidth h a)%Q /\ (barWidth h a <= 100)%Q /\
    (barWidth h a == 100 <-> (currentStepIdx h + 1)%nat = List.length (steps a)).
Proof.
  intros Hok h G.
  destruct (bounded_run es initial bounded_initial Hok) as (_ & _ & H3 & _).
  fold h in H3.
  destruct H3 as (a & Ha & Hi).
  { left. unfold guidanceScreen in G. apply andb_true_iff in G as [G _].
    apply AppState_beq_true, G. }
  exists a. split; [exact Ha|]. unfold stepLabel. rewrite Ha.
  split; [reflexivity|]. split; [lia|].
  unfold barWidth.
  remember (currentStepIdx h) as i. remember (List.length (steps a)) as n.
  clear - Hi.
  assert (P : (0 < Z.of_nat n)%Z) by lia.
  destruct (Z.of_nat n) as [|p|p] eqn:En; try lia.
  unfold Qlt, Qle, Qeq, Qdiv, Qmult, Qinv, inject_Z. simpl.
  repeat split; try lia.
Qed.

Lemma progress_bar_in_range_witness :
  let es := (Sample.toGuidance Sample.plan3 ++
             round "a.jpg" Sample.ok)%list in
  let h := hooks (run es initial) in
  run_ok es initial /\ guidanceScreen h = true /\
  exists a, analysis h = Some a /\
    stepLabel h = Some ((currentStepIdx h + 1)%nat, List.length (steps a)) /\
    (1 <= currentStepIdx h + 1 <= List.length (steps a))%nat /\
    (0 < barWidth h a)%Q /\ (barWidth h a <= 100)%Q /\
    (barWidth h a == 100 <-> (currentStepIdx h + 1)%nat = List.length (steps a)).
Proof.
  intros es h.
  assert (Hok : run_ok es initial).
  { vm_compute. repeat split; try discriminate. }
  assert (G : guidanceScreen (hooks (run es initial)) = true)
    by (vm_compute; reflexivity).
  split; [exact Hok | split; [exact G|]].
  exact (progress_bar_in_range es Hok G).
Defined.

(** ** The hold, for any number of samples *)

Lemma holding_samples (w : World) (start : Z) (ts : list Z) (w1 : World) :
  Forall (fun t => (t - start < duration_ms)%Z) ts ->
  holding w start w1 ->
  holding w start (run (map (IntervalTick (nextHandle w)) ts) w1).
Proof.
  intros Hts. revert w1. induction Hts as [|t ts Ht _ IH]; intros w1 H; [exact H|].
  cbn [map]. rewrite run_cons. apply IH. clear IH.
  destruct H as (S1 & I1 & R1 & F1 & K1 & T1).
  set (iv := mkInterval (nextHandle w) start (hooks w)) in *.
  destruct (sample_below_full w1 iv t I1 Ht) as (A & _ & _ & B & C & D & E).
  change (handle iv) with (nextHandle w) in A, B, C, D, E.
  assert (T : timeouts (dispatch (IntervalTick (nextHandle w) t) w1) = timeouts w1).
  { rewrite (tick_below_full w1 iv (nextHandle w) t);
      [reflexivity | rewrite I1; simpl; rewrite Nat.eqb_refl; reflexivity | exact Ht]. }
  unfold holding. rewrite B, C, D, E, T.
  repeat split; auto; unfold sameSession in *; intuition congruence.
Qed.

Lemma pointer_down_holding (w : World) (start : Z) :
  guidanceScreen (hooks w) = true -> intervals w = [] ->
  holding w start (dispatch (OverridePointerDown start) w).
Proof.
  intros G E.
  destruct (pointer_down_lone w start G E) as (S0 & _ & _ & I0 & R0 & F0 & K0).
  unfold holding. repeat split; auto; try apply S0.
  unfold dispatch. rewrite G. reflexivity.
Qed.

(** X15.  A hold that is released in time changes nothing.  On the guidance
    screen with no timer live: pointer down, any number of samples of the
    timer before 1500 ms, pointer up.  Afterwards every cell of the session
    is what it was, the hold is over with the progress at 0, no timer is
    live, [progressInterval.current] is [null], and nothing was sent,
    spoken or scheduled. *)
Theorem cancelled_hold_changes_nothing (w : World) (start : Z) (ts : list Z) :
  guidanceScreen (hooks w) = true ->
  intervals w = [] ->
  nextHandle w <> 0%nat ->
  Forall (fun t => (t - start < duration_ms)%Z) ts ->
  let n := nextHandle w in
  let w' := run (OverridePointerDown start :: map (IntervalTick n) ts
                 ++ [OverridePointerUp]) w in
  sameSession (hooks w) (hooks w') /\
  overrideHeld (hooks w') = false /\ overrideProgress (hooks w') = 0 /\
  intervals w' = [] /\ progressInterval w' = None /\
  inflight w' = inflight w /\ spoken w' = spoken w /\ timeouts w' = timeouts w.
Proof.
  intros G E Hn Hts n w'.
  pose proof (holding_samples w start ts _ Hts (pointer_down_holding w start G E)) as H.
  subst w' n. rewrite run_cons, run_app.
  remember (run (map (IntervalTick (nextHandle w)) ts)
              (dispatch (OverridePointerDown start) w)) as w1.
  clear Heqw1. destruct H as (S1 & I1 & R1 & F1 & K1 & T1).
  assert (G' : guidanceScreen (hooks w1) = true).
  { unfold guidanceScreen in *.
    destruct S1 as (A & _ & _ & _ & _ & B & _). rewrite A, B. exact G. }
  assert (Ew : run [OverridePointerUp] w1 = exec handleOverrideEnd w1).
  { unfold run. cbn [fold_left]. unfold dispatch. rewrite G'. reflexivity. }
  rewrite Ew. destruct (pointer_up_cells w1) as (C & F & K). rewrite C, F, K.
  cbn [overrideProgress overrideHeld].
  assert (X : intervals (exec handleOverrideEnd w1) = [] /\
              progressInterval (exec handleOverrideEnd w1) = None /\
              timeouts (exec handleOverrideEnd w1) = timeouts w1).
  { unfold exec, handleOverrideEnd, bind, getProgressInterval. cbn.
    rewrite R1. destruct (nextHandle w) as [|k]; [congruence|].
    cbn. rewrite I1. cbn. rewrite Nat.eqb_refl. auto. }
  destruct X as (X1 & X2 & X3). rewrite X1, X2, X3.
  repeat split; auto; try congruence;
    unfold sameSession in S1; cbn; intuition congruence.
Qed.

Lemma cancelled_hold_changes_nothing_witness :
  let w := run (Sample.toGuidance Sample.plan3) initial in
  let ts := [1016; 1500; 2000; 2499]%Z in
  let w' := run (OverridePointerDown 1000 :: map (IntervalTick (nextHandle w)) ts
                 ++ [OverridePointerUp]) w in
  sameSession (hooks w) (hooks w') /\
  overrideHeld (hooks w') = false /\ overrideProgress (hooks w') = 0 /\
  intervals w' = [] /\ progressInterval w' = None /\
  inflight w' = inflight w /\ spoken w' = spoken w /\ timeouts w' = timeouts w.
Proof.
  intros w ts.
  assert (G : guidanceScreen (hooks w) = true) by (vm_compute; reflexivity).
  assert (E : intervals w = []) by (vm_compute; reflexivity).
  assert (Hn : nextHandle w <> 0%nat) by (vm_compute; discriminate).
  assert (Hts : Forall (fun t => (t - 1000 < duration_ms)%Z) ts).
  { repeat constructor. }
  exact (cancelled_hold_changes_nothing w 1000 ts G E Hn Hts).
Defined.

(** X16.  A hold that is kept advances once.  On the guidance screen with
    no timer live: pointer down, any number of samples before 1500 ms, and
    the first sample from 1500 ms on.  The screen, the index, the feedback
    and what has been spoken are then those that [proceedNext] gives from
    the state before the hold, so the next prompt is spoken once; the hold
    is over with the progress at 0; and no timer is left, so that no later
    sample does anything. *)
Theorem completed_hold_advances_once (w : World) (start : Z) (ts : list Z) (t : Z) :
  guidanceScreen (hooks w) = true ->
  intervals w = [] ->
  nextHandle w <> 0%nat ->
  Forall (fun t => (t - start < duration_ms)%Z) ts ->
  (duration_ms <= t - start)%Z ->
  let n := nextHandle w in
  let w' := run (OverridePointerDown start :: map (IntervalTick n) ts
                 ++ [IntervalTick n t]) w in
  let wp := exec (proceedNext (hooks w)) w in
  (state (hooks w') = state (hooks wp) /\
   currentStepIdx (hooks w') = currentStepIdx (hooks wp) /\
   verificationFeedback (hooks w') = verificationFeedback (hooks wp) /\
   spoken w' = spoken wp) /\
  (overrideHeld (hooks w') = false /\ overrideProgress (hooks w') = 0 /\
   intervals w' = []) /\
  (forall n' t', dispatch (IntervalTick n' t') w' = w').
Proof.
  intros G E Hn Hts Ht n w' wp.
  pose proof (holding_samples w start ts _ Hts (pointer_down_holding w start G E)) as H.
  subst w' n. rewrite run_cons, run_app.
  remember (run (map (IntervalTick (nextHandle w)) ts)
              (dispatch (OverridePointerDown start) w)) as w1.
  clear Heqw1. destruct H as (S1 & I1 & R1 & F1 & K1 & T1).
  unfold run. cbn [fold_left].
  assert (A : exists a, analysis (hooks w) = Some a).
  { unfold guidanceScreen in G. apply andb_true_iff in G as [_ G].
    destruct (analysis (hooks w)) as [a|]; [eauto | discriminate]. }
  destruct A as [a A].
  assert (Ew : dispatch (IntervalTick (nextHandle w) t) w1
               = exec (intervalCallback (hooks w) start t) w1).
  { unfold dispatch. rewrite I1. simpl. rewrite Nat.eqb_refl. reflexivity. }
  rewrite Ew. clear Ew.
  assert (Full : Qle_bool 100 (progressAt (t - start)) = true)
    by (apply progress_full_iff, Ht).
  destruct S1 as (Q1 & Q2 & Q3 & Q4 & Q5 & Q6 & Q7 & Q8 & Q9 & Q10).
  assert (X : forall w2,
             hooks w2 = hooks (exec (setOverrideProgress (progressAt (t - start))) w1) ->
             spoken w2 = spoken w1 ->
             let w3 := exec (proceedNext (hooks w) ;; setOverrideHeld false ;;
                             setOverrideProgress 0) w2 in
             (state (hooks w3) = state (hooks wp) /\
              currentStepIdx (hooks w3) = currentStepIdx (hooks wp) /\
              verificationFeedback (hooks w3) = verificationFeedback (hooks wp) /\
              spoken w3 = spoken wp) /\
             overrideHeld (hooks w3) = false /\ overrideProgress (hooks w3) = 0 /\
             intervals w3 = intervals w2).
  { intros w2 Hh Hs w3. subst w3 wp. unfold exec, bind.
    destruct (Nat.ltb_spec (currentStepIdx (hooks w) + 1) (List.length (steps a)))
      as [L|L].
    - destruct (proceedNext_inner (hooks w) a A w2 L) as (s & Ns & ->).
      destruct (proceedNext_inner (hooks w) a A w L) as (s' & Ns' & ->).
      assert (s' = s) by congruence. subst s'.
      simpl. rewrite Hs, K1. repeat split.
    - rewrite (proceedNext_last (hooks w) a A w2 L).
      rewrite (proceedNext_last (hooks w) a A w L).
      simpl. rewrite Hh, Hs, K1. unfold exec. simpl. repeat split; auto. }
  assert (Ec : exec (intervalCallback (hooks w) start t) w1
               = exec (proceedNext (hooks w) ;; setOverrideHeld false ;;
                       setOverrideProgress 0)
                   (exec (setOverrideProgress (progressAt (t - start)) ;;
                          clearInterval (nextHandle w)) w1)).
  { unfold intervalCallback. rewrite Full.
    cbv [exec bind getProgressInterval setOverrideProgress write clearInterval ret].
    cbn [fst progressInterval]. rewrite R1.
    destruct (nextHandle w) as [|k]; [congruence|]. reflexivity. }
  rewrite Ec.
  match goal with
  | |- context [exec _ ?x] =>
      match x with
      | exec (_ ;; clearInterval _) _ => destruct (X x) as (Y1 & Y2 & Y3 & Y4)
      end
  end; [reflexivity | reflexivity |].
  assert (I' : intervals
                 (exec (setOverrideProgress (progressAt (t - start)) ;;
                        clearInterval (nextHandle w)) w1) = []).
  { unfold exec. simpl. rewrite I1. simpl. rewrite Nat.eqb_refl. reflexivity. }
  rewrite I' in Y4.
  split; [exact Y1 | split; [auto|]].
  intros n' t'. unfold dispatch. rewrite Y4. reflexivity.
Qed.

Lemma completed_hold_advances_once_witness :
  let w := run (Sample.toGuidance Sample.plan3) initial in
  let ts := [1016; 1500; 2499]%Z in
  let w' := run (OverridePointerDown 1000 :: map (IntervalTick (nextHandle w)) ts
                 ++ [IntervalTick (nextHandle w) 2500]) w in
  (state (hooks w') = GUIDANCE /\ currentStepIdx (hooks w') = 1%nat /\
   spoken w' = ["Now unplug"; "Now reseat"]) /\
  (overrideHeld (hooks w') = false /\ overrideProgress (hooks w') = 0 /\
   intervals w' = []) /\
  (forall n' t', dispatch (IntervalTick n' t') w' = w').
Proof.
  intros w ts.
  assert (G : guidanceScreen (hooks w) = true) by (vm_compute; reflexivity).
  assert (E : intervals w = []) by (vm_compute; reflexivity).
  assert (Hn : nextHandle w <> 0%nat) by (vm_compute; discriminate).
  assert (Hts : Forall (fun t => (t - 1000 < duration_ms)%Z) ts).
  { repeat constructor. }
  assert (Ht : (duration_ms <= 2500 - 1000)%Z) by (vm_compute; discriminate).
  destruct (completed_hold_advances_once w 1000 ts 2500 G E Hn Hts Ht)
    as ((A1 & A2 & _ & A4) & B & C).
  split; [|split; [exact B | exact C]].
  split; [rewrite A1; vm_compute; reflexivity|].
  split; [rewrite A2; vm_compute; reflexivity|].
  rewrite A4. vm_compute. reflexivity.
Defined.

(** ** The spoken prompt *)

Example atob_demo :
  Audio.atob "SGVsbG8=" = Fulfilled "Hello" /\
  Audio.atob " SGVs bG8h " = Fulfilled "Hello!" /\
  Audio.atob "SGVsbG8" = Fulfilled "Hello" /\
  Audio.atob "SGVsb" = Rejected Audio.invalidCharacter /\
  Audio.atob "SGV$bG8=" = Rejected Audio.invalidCharacter.
Proof. vm_compute. repeat split. Qed.

(** Eight bytes of audio: the samples 0, 32767, -32768 and 16384, each over
    32768. *)
Example playInstructionAudio_demo :
  Audio.playInstructionAudio (Audio.Response (Some "AAD/fwCAAEA="))
  = Fulfilled (Some (Audio.channelData [0; 32767; -32768; 16384]%Z)).
Proof. vm_compute. reflexivity. Qed.

Lemma length_list_ascii (s : string) :
  List.length (list_ascii_of_string s) = String.length s.
Proof. induction s as [|c s IH]; simpl; congruence. Qed.

Lemma charCodes_length (s : string) :
  List.length (Audio.charCodes s) = String.length s.
Proof. unfold Audio.charCodes. rewrite length_map. apply length_list_ascii. Qed.

Lemma charCodes_bytes (s : string) : Forall is_byte (Audio.charCodes s).
Proof.
  unfold Audio.charCodes. apply Forall_map, Forall_forall. intros c _.
  pose proof (nat_ascii_bounded c). unfold is_byte. lia.
Qed.

Lemma int16_range (lo hi : Z) :
  is_byte lo -> is_byte hi -> (-32768 <= Audio.int16 lo hi < 32768)%Z.
Proof.
  unfold is_byte, Audio.int16. intros H1 H2.
  destruct (lo + 256 * hi <? 32768)%Z eqn:E;
    [apply Z.ltb_lt in E | apply Z.ltb_ge in E]; lia.
Qed.

Lemma words_spec (n : nat) (bs : list Z) :
  (List.length bs <= n)%nat -> Forall is_byte bs ->
  Forall (fun v => (-32768 <= v < 32768)%Z) (Audio.words bs) /\
  (Nat.even (List.length bs) = true ->
   (2 * List.length (Audio.words bs))%nat = List.length bs).
Proof.
  revert bs. induction n as [|n IH]; intros bs L F.
  - destruct bs; [|simpl in L; lia]. simpl. split; [constructor | reflexivity].
  - destruct bs as [|lo [|hi r]].
    + simpl. split; [constructor | reflexivity].
    + simpl. split; [constructor | discriminate].
    + inversion F as [|? ? Hlo F1]; subst. inversion F1 as [|? ? Hhi F2]; subst.
      destruct (IH r) as (A & B); [simpl in L; lia | exact F2 |].
      cbn [Audio.words List.length]. split.
      * constructor; [apply int16_range; assumption | exact A].
      * intros Ev. change (Nat.even (S (S (List.length r)))) with (Nat.even (List.length r)) in Ev.
        specialize (B Ev). lia.
Qed.

Lemma sample_range (v : Z) :
  (-32768 <= v < 32768)%Z ->
  (-1 <= inject_Z v / 32768)%Q /\ (inject_Z v / 32768 < 1)%Q.
Proof.
  intros H. unfold Qle, Qlt, Qdiv, Qmult, Qinv, inject_Z. simpl. lia.
Qed.

(** X17.  What [playInstructionAudio] plays.  Whenever a buffer is started,
    the response carried base64 audio that [atob] decoded; the buffer has
    one sample for every two decoded bytes and at least one sample; and
    every sample is at least -1 and below 1. *)
Theorem played_samples (reply : Audio.Reply) (buffer : list Q) :
  Audio.playInstructionAudio reply = Fulfilled (Some buffer) ->
  exists data binary,
    reply = Audio.Response (Some data) /\
    Audio.atob data = Fulfilled binary /\
    String.length binary = (2 * List.length buffer)%nat /\
    buffer <> [] /\
    Forall (fun q => (-1 <= q)%Q /\ (q < 1)%Q) buffer.
Proof.
  unfold Audio.playInstructionAudio, Audio.attempt.
  destruct reply as [e|[[|c data]|]]; try discriminate.
  destruct (Audio.atob (String c data)) as [binary|e] eqn:Ea; simpl; [|discriminate].
  unfold Audio.Int16Array.
  destruct (Nat.even (List.length (Audio.charCodes binary))) eqn:Ev; simpl; [|discriminate].
  unfold Audio.createBuffer.
  destruct (List.length (Audio.words (Audio.charCodes binary)) =? 0)%nat eqn:Ez;
    simpl; [discriminate|].
  intros [= <-].
  destruct (words_spec _ (Audio.charCodes binary) (le_n _) (charCodes_bytes binary))
    as (A & B).
  specialize (B Ev). rewrite charCodes_length in B.
  exists (String c data), binary. unfold Audio.channelData.
  rewrite length_map.
  split; [reflexivity | split; [exact Ea | split; [symmetry; exact B | split]]].
  - apply Nat.eqb_neq in Ez.
    intros N. apply map_eq_nil in N. rewrite N in Ez. apply Ez. reflexivity.
  - apply Forall_map. revert A. apply Forall_impl. intros v. apply sample_range.
Qed.

Lemma played_samples_witness :
  exists data binary,
    Audio.Response (Some "AAD/fwCAAEA=") = Audio.Response (Some data) /\
    Audio.atob data = Fulfilled binary /\
    String.length binary
    = (2 * List.length (Audio.channelData [0; 32767; -32768; 16384]%Z))%nat /\
    Audio.channelData [0; 32767; -32768; 16384]%Z <> [] /\
    Forall (fun q => (-1 <= q)%Q /\ (q < 1)%Q)
      (Audio.channelData [0; 32767; -32768; 16384]%Z).
Proof.
  apply (played_samples (Audio.Response (Some "AAD/fwCAAEA="))).
  vm_compute. reflexivity.
Defined.

(** X18.  [playInstructionAudio] keeps its failures to itself.  The request
    and the decoding are inside its [try], unlike in [verifyStep]: for every
    reply the call is fulfilled.  Nothing is played when the request fails,
    when [atob] rejects the text, or when the decoded audio has an odd
    number of bytes (the [Int16Array] constructor throws). *)
Theorem playInstructionAudio_swallows_failures :
  (forall reply, exists r, Audio.playInstructionAudio reply = Fulfilled r) /\
  (forall e, Audio.playInstructionAudio (Audio.Failed e) = Fulfilled None) /\
  (forall data e, Audio.atob data = Rejected e ->
     Audio.playInstructionAudio (Audio.Response (Some data)) = Fulfilled None) /\
  (forall data binary, Audio.atob data = Fulfilled binary ->
     Nat.odd (String.length binary) = true ->
     Audio.playInstructionAudio (Audio.Response (Some data)) = Fulfilled None).
Proof.
  split; [|split; [|split]].
  - intros reply. unfold Audio.playInstructionAudio.
    destruct (Audio.attempt reply) as [r|e]; eauto.
  - reflexivity.
  - intros data e H. unfold Audio.playInstructionAudio, Audio.attempt.
    destruct data as [|c data]; [reflexivity|]. rewrite H. reflexivity.
  - intros data binary H O. unfold Audio.playInstructionAudio, Audio.attempt.
    destruct data as [|c data]; [reflexivity|]. rewrite H. simpl.
    unfold Audio.Int16Array. rewrite charCodes_length.
    rewrite <- Nat.negb_odd, O. reflexivity.
Qed.

Lemma playInstructionAudio_swallows_failures_witness :
  Audio.atob "AAAA" = Fulfilled (String zero (String zero (String zero EmptyString))) /\
  Audio.playInstructionAudio (Audio.Response (Some "AAAA")) = Fulfilled None /\
  Audio.playInstructionAudio (Audio.Response (Some "%")) = Fulfilled None.
Proof.
  destruct playInstructionAudio_swallows_failures as (_ & _ & B & C).
  assert (H : Audio.atob "AAAA"
              = Fulfilled (String zero (String zero (String zero EmptyString))))
    by (vm_compute; reflexivity).
  assert (H' : Audio.atob "%" = Rejected Audio.invalidCharacter)
    by (vm_compute; reflexivity).
  split; [exact H | split].
  - apply (C "AAAA" _ H). reflexivity.
  - apply (B "%" _ H').
Defined.

(** ** Retrying a verification *)

(** X19.  [Retry Capture] asks for the same step again.  The button is on
    the feedback card only for a verdict whose [success] is false; for a
    successful verdict there is nothing to press.  Pressed, it drops the
    feedback, which takes the card off the page, and leaves the screen, the
    index and the requests as they are; the next photo is then sent with
    the instruction of the same step. *)
Theorem retry_asks_for_the_same_step (w : World) (fb : Feedback)
  (a : AnalysisResult) (s : GuidanceStep) (d : string) :
  state (hooks w) = STEP_VALIDATION ->
  verificationFeedback (hooks w) = Some fb ->
  isBusy (hooks w) = false ->
  analysis (hooks w) = Some a ->
  nth_error (steps a) (currentStepIdx (hooks w)) = Some s ->
  let w1 := dispatch RetryCapture w in
  let w2 := dispatch (Capture d) w1 in
  if success fb then w1 = w
  else
    (page (hooks w) = [Camera; FeedbackCard] /\ page (hooks w1) = [Camera] /\
     verificationFeedback (hooks w1) = None /\
     currentStepIdx (hooks w1) = currentStepIdx (hooks w) /\
     inflight w1 = inflight w) /\
    (inflight w2 = (inflight w ++ [VerifyRequest (instruction s) d])%list /\
     isBusy (hooks w2) = true /\ state (hooks w2) = STEP_VALIDATION /\
     verificationFeedback (hooks w2) = None).
Proof.
  intros S V B A N w1 w2.
  assert (C : feedbackCard (hooks w) = true).
  { apply feedbackCard_iff. split; [exact S | eauto]. }
  destruct (success fb) eqn:Es.
  - subst w1. unfold dispatch. rewrite V, C, Es. reflexivity.
  - assert (E1 : w1 = exec (setVerificationFeedback None) w).
    { subst w1. unfold dispatch. rewrite V, C, Es. reflexivity. }
    assert (E2 : w2 = exec (setIsCapturing false ;; setIsBusy true ;;
                            await (VerifyRequest (instruction s) d)) w1).
    { subst w2. rewrite E1.
      apply (capture_sends_active_instruction _ d a s); assumption. }
    split.
    + rewrite E1. unfold exec, page, rendering, blocks, captureScreen,
        captureReadyScreen, resultScreen, guidanceScreen, feedbackCard. simpl.
      rewrite S, V. simpl. repeat split.
    + rewrite E2, E1. unfold exec. simpl. rewrite S. repeat split.
Qed.

Lemma retry_asks_for_the_same_step_witness :
  let w := run (Sample.toFeedback Sample.plan3 Sample.looseWire) initial in
  let w1 := dispatch RetryCapture w in
  let w2 := dispatch (Capture "again.jpg") w1 in
  (page (hooks w) = [Camera; FeedbackCard] /\ page (hooks w1) = [Camera] /\
   verificationFeedback (hooks w1) = None /\
   currentStepIdx (hooks w1) = currentStepIdx (hooks w) /\
   inflight w1 = inflight w) /\
  (inflight w2 = (inflight w ++ [VerifyRequest "Do this: unplug" "again.jpg"])%list /\
   isBusy (hooks w2) = true /\ state (hooks w2) = STEP_VALIDATION /\
   verificationFeedback (hooks w2) = None).
Proof.
  intros w.
  assert (S : state (hooks w) = STEP_VALIDATION) by (vm_compute; reflexivity).
  assert (V : verificationFeedback (hooks w) = Some Sample.looseWire)
    by (vm_compute; reflexivity).
  assert (B : isBusy (hooks w) = false) by (vm_compute; reflexivity).
  assert (A : analysis (hooks w) = Some Sample.plan3) by (vm_compute; reflexivity).
  assert (N : nth_error (steps Sample.plan3) (currentStepIdx (hooks w))
              = Some (Sample.step 1 "unplug")) by (vm_compute; reflexivity).
  exact (retry_asks_for_the_same_step w Sample.looseWire Sample.plan3
           (Sample.step 1 "unplug") "again.jpg" S V B A N).
Defined.
